(** * Carrier manager: channel allocation over a multi-beam grid

    A shallow embedding of [baseline-stage-1.py] and the properties of its
    allocation engine: the 18-beam neighbourhood, the interference scan, the
    priority escalation loop, commit and deallocation, and the conversion
    between the grid/registry state and the flat record list.

    Conventions of the embedding.
    - Python integers are [Z].  Priorities and grid cells are float64 in the
      source; every value the program computes with is integral (scores
      0..118, priorities incremented by one, identities printed from
      integers), so they are [Z] here.  The integers are the float64 values
      up to the magnitude 2^53 ([exact_priority]); where a property reaches
      beyond, [f64_round] gives the float64 the source holds
      ([scan_and_escalate], [neighbour_array]).  Not-a-number and infinities
      are outside the embedding.
    - [channel_list] is a numpy array of shape [n_i+4, n_j+8, channels]: a
      list of rows, each a list of columns, each a list of cells, indexed the
      way Python indexes (a negative index counts from the end, an index out
      of range raises IndexError).
    - [allocated_carriers] is a dict from the carrier code, the string
      'i:j:channel:u_code', to the priority: a [gmap string Z].
    - An exception is an outcome; functions that mutate their arguments
      return the state they leave behind next to the outcome.
    - A call of [np.random.randint] takes what the generator supplies, the
      draw, as an argument. *)

From Stdlib Require Import Ascii.
From stdpp Require Import gmap strings list pretty sorting.

Open Scope Z_scope.

(** ** Outcomes *)

Inductive exn : Set :=
| IndexError
| ValueError
| KeyError
| UnboundLocalError.

Inductive outcome (A : Type) : Type :=
| Returned (a : A)
| Raised (e : exn)
| OutOfFuel.

Arguments Returned {A} a.
Arguments Raised {A} e.
Arguments OutOfFuel {A}.

#[global] Instance outcome_ret : MRet outcome := fun A a => Returned a.
#[global] Instance outcome_bind : MBind outcome := fun A B f m =>
  match m with
  | Returned a => f a
  | Raised e => Raised e
  | OutOfFuel => OutOfFuel
  end.

(** A [for] loop that threads an accumulator and stops at the first
    exception. *)
Fixpoint for_each {A B : Type} (body : A -> B -> outcome A) (acc : A) (l : list B)
  : outcome A :=
  match l with
  | [] => Returned acc
  | x :: l' => acc' ← body acc x; for_each body acc' l'
  end.

(** ** Sequences indexed the Python way *)

Definition py_index (len : nat) (k : Z) : outcome nat :=
  if decide (0 <= k < Z.of_nat len) then Returned (Z.to_nat k)
  else if decide (- Z.of_nat len <= k < 0) then Returned (Z.to_nat (Z.of_nat len + k))
  else Raised IndexError.

Definition getitem {A : Type} (l : list A) (k : Z) : outcome A :=
  n ← py_index (length l) k;
  match l !! n with
  | Some x => Returned x
  | None => Raised IndexError
  end.

Definition setitem {A : Type} (l : list A) (k : Z) (x : A) : outcome (list A) :=
  n ← py_index (length l) k;
  Returned (<[n := x]> l).

(** ** Strings: [re.split], [int], [float] and [format] *)

(** [re.split(sep, s)] for a one-character pattern. *)
Fixpoint re_split (sep : ascii) (s : string) : list string :=
  match s with
  | EmptyString => [EmptyString]
  | String a s' =>
      if decide (a = sep) then EmptyString :: re_split sep s'
      else match re_split sep s' with
           | p :: ps => String a p :: ps
           | [] => [String a EmptyString]
           end
  end.

Definition digit_value (a : ascii) : option Z :=
  let n := Z.of_N (N_of_ascii a) in
  if decide (48 <= n <= 57) then Some (n - 48) else None.

Fixpoint digits_value (acc : Z) (s : string) : option Z :=
  match s with
  | EmptyString => Some acc
  | String a s' =>
      match digit_value a with
      | Some d => digits_value (acc * 10 + d) s'
      | None => None
      end
  end.

(** [int(s)] on a decimal literal: an optional minus sign and at least one
    digit.  Anything else is a ValueError here (the literals with spaces,
    a plus sign or underscores that Python also reads are not modelled). *)
Definition py_int (s : string) : outcome Z :=
  match s with
  | EmptyString => Raised ValueError
  | String a s' =>
      if decide (a = "-"%char) then
        match s' with
        | EmptyString => Raised ValueError
        | String _ _ =>
            match digits_value 0 s' with
            | Some n => Returned (- n)
            | None => Raised ValueError
            end
        end
      else
        match digits_value 0 s with
        | Some n => Returned n
        | None => Raised ValueError
        end
  end.

(** The value numpy stores when a string is assigned to a float64 cell: it
    converts with [float(s)], which raises ValueError on a string that is not
    a numeric literal.  The identities of this program are printed integers
    ([str] of an integer), so the conversion is modelled on integer literals;
    literals with a fraction or an exponent are not modelled. *)
Definition py_float (s : string) : outcome Z := py_int s.

(** '{i}:{j}:{channel}:{u_code}'.format(...) *)
Definition carrier_code_of (i j channel : Z) (u_code : string) : string :=
  pretty i +:+ ":" +:+ pretty j +:+ ":" +:+ pretty channel +:+ ":" +:+ u_code.

(** ** Data model *)

(** [channel_list]: cell 0 is an unallocated channel, any other value is the
    unique code of the carrier that holds it. *)
Abbreviation grid := (list (list (list Z))).

Record state : Type := State {
  channel_list : grid;
  allocated_carriers : gmap string Z
}.

(** A new carrier, the dict with keys 'i', 'j', 'priority', 'ucode'. *)
Record carrier_info : Type := CarrierInfo {
  nc_i : Z;
  nc_j : Z;
  nc_priority : Z;
  nc_ucode : string
}.

(** The same dict after [base_carrier_manager] has added the keys
    'imperfect_channels', 'good_channels' and 'final_priority'. *)
Record processed_carrier : Type := Processed {
  info : carrier_info;
  imperfect_channels : list Z;
  good_channels : list Z;
  final_priority : Z
}.

(** A raw carrier, the dict with keys 'i', 'j', 'channel', 'ucode',
    'priority'. *)
Record raw_carrier : Type := RawCarrier {
  raw_i : Z;
  raw_j : Z;
  raw_channel : Z;
  raw_ucode : string;
  raw_priority : Z
}.

(** np.zeros(shape = [a, b, c]) *)
Definition np_zeros (a b c : nat) : grid :=
  replicate a (replicate b (replicate c 0)).

(** channel_list[i][j][channel] *)
Definition grid_get (g : grid) (i j channel : Z) : outcome Z :=
  row ← getitem g i;
  col ← getitem row j;
  getitem col channel.

(** channel_list[i][j][channel] = value.  The first two subscripts are views
    of the array, so the assignment writes through them; numpy locates the
    item and then converts the value to the cell type. *)
Definition grid_set (g : grid) (i j channel : Z) (value : outcome Z) : outcome grid :=
  row ← getitem g i;
  col ← getitem row j;
  n ← py_index (length col) channel;
  v ← value;
  row' ← setitem row j (<[n := v]> col);
  setitem g i row'.

(** ** The program *)

(** The priority is [float(carrier_info['priority'])] in the source: the
    priority itself wherever float64 holds it exactly ([exact_priority]);
    [scan_and_escalate] has the conversion. *)
Definition process_new_carrier (carrier_info : carrier_info) : Z * Z * Z * string :=
  (nc_i carrier_info, nc_j carrier_info, nc_priority carrier_info, nc_ucode carrier_info).

(** The list [coords] that [create_neighbour_coords] builds; what it
    returns, [np.array(coords)], is [neighbour_array]. *)
Definition create_neighbour_coords (c_i c_j : Z) : list (Z * Z) :=
  (i ← [c_i - 1; c_i + 1]; j ← [c_j - 1; c_j + 1; c_j - 3; c_j + 3]; [(i, j)])
  ++ (j ← [c_j - 2; c_j + 2; c_j - 4; c_j + 4]; [(c_i, j)])
  ++ (i ← [c_i - 2; c_i + 2]; j ← [c_j - 1; c_j; c_j + 1]; [(i, j)]).

(** np.arange(40), the default of [scan_carriers] that every caller uses. *)
Definition possible_channels : list Z := seqZ 0 40.

(** The body of [for i,j in neighbour_coords] in [scan_carriers]. *)
Definition scan_neighbour (channel_list : grid) (channel : Z)
    (imperfect_channels : list Z) (coord : Z * Z) : outcome (list Z) :=
  let '(i, j) := coord in
  v ← grid_get channel_list i j channel;
  if decide (v ≠ 0) then
    x ← getitem imperfect_channels channel;
    setitem imperfect_channels channel (x + 1)
  else Returned imperfect_channels.

(** The body of [for channel in possible_channels] in [scan_carriers]; the
    accumulator is [(good_channels, imperfect_channels)]. *)
Definition scan_channel (centre_i centre_j : Z) (channel_list : grid) (priority : Z)
    (neighbour_coords : list (Z * Z)) (acc : list Z * list Z) (channel : Z)
  : outcome (list Z * list Z) :=
  let '(good_channels, imperfect_channels) := acc in
  v ← grid_get channel_list centre_i centre_j channel;
  imperfect_channels ←
    (if decide (v ≠ 0) then setitem imperfect_channels channel 100
     else Returned imperfect_channels);
  imperfect_channels ←
    for_each (scan_neighbour channel_list channel) imperfect_channels neighbour_coords;
  x ← getitem imperfect_channels channel;
  if decide (x <= priority) then Returned (good_channels ++ [channel], imperfect_channels)
  else Returned (good_channels, imperfect_channels).

Definition scan_carriers (centre_i centre_j : Z) (channel_list : grid) (priority : Z)
  : outcome (list Z * list Z) :=
  row0 ← getitem channel_list 0;
  col0 ← getitem row0 0;
  let imperfect_channels := replicate (length col0) 0 in
  let neighbour_coords := create_neighbour_coords centre_i centre_j in
  for_each (scan_channel centre_i centre_j channel_list priority neighbour_coords)
    ([], imperfect_channels) possible_channels.

(** [assign_carrier] writes the grid slot first and the dict second; it
    returns the two objects it was given. *)
Definition assign_carrier (s : state) (c_i c_j channel : Z) (ucode : string)
    (priority : Z) : outcome unit * state :=
  match grid_set (channel_list s) c_i c_j channel (py_float ucode) with
  | Returned g =>
      let carrier_code := carrier_code_of c_i c_j channel ucode in
      (Returned (), State g (<[carrier_code := priority]> (allocated_carriers s)))
  | Raised e => (Raised e, s)
  | OutOfFuel => (OutOfFuel, s)
  end.

(** [convert_to_raw] walks the keys of the dict.  Python walks them in
    insertion order, which the map does not record: the walk takes the
    enumeration [keys] as an argument. *)
Definition raw_of_code (allocated_carriers : gmap string Z) (carrier_code : string)
  : outcome raw_carrier :=
  match re_split ":" carrier_code with
  | [i; j; channel; ucode] =>
      match allocated_carriers !! carrier_code with
      | Some priority =>
          i' ← py_int i;
          j' ← py_int j;
          channel' ← py_int channel;
          Returned (RawCarrier i' j' channel' ucode priority)
      | None => Raised KeyError
      end
  | _ => Raised ValueError
  end.

Definition convert_to_raw (keys : list string) (s : state) : outcome (list raw_carrier) :=
  for_each (fun raw_carriers carrier_code =>
              c ← raw_of_code (allocated_carriers s) carrier_code;
              Returned (raw_carriers ++ [c]))
    [] keys.

(** The body of [for c_data in raw_data] in [convert_from_raw]: the dict is
    written before the grid. *)
Definition load_raw (s : state) (c_data : raw_carrier) : outcome state :=
  let carrier_code :=
    carrier_code_of (raw_i c_data) (raw_j c_data) (raw_channel c_data) (raw_ucode c_data) in
  let allocated := <[carrier_code := raw_priority c_data]> (allocated_carriers s) in
  g ← grid_set (channel_list s) (raw_i c_data) (raw_j c_data) (raw_channel c_data)
        (py_float (raw_ucode c_data));
  Returned (State g allocated).

Definition convert_from_raw (raw_data : list raw_carrier) (n_i n_j channels : nat)
  : outcome state :=
  for_each load_raw (State (np_zeros (n_i + 4) (n_j + 8) channels) ∅) raw_data.

(** [import_data] with [data_file = None]. *)
Definition import_data (data : list raw_carrier) (n_i n_j channels : nat) : outcome state :=
  convert_from_raw data n_i n_j channels.

(** The [while True] loop of [base_carrier_manager].  A pass that finds
    [good_channels] empty scans again at the current priority and then
    increments it; [fuel] bounds the number of such passes.  The pass that
    finds a channel breaks.  The threshold is counted in integers here and
    in float64 in [escalate_f64]; the two loops are one from every threshold
    of -2^53 or more ([escalate_f64_exact]). *)
Fixpoint escalate (fuel : nat) (c_i c_j : Z) (channel_list : grid)
    (good_channels imperfect_channels : list Z) (priority : Z)
  : outcome (list Z * list Z * Z) :=
  match good_channels with
  | _ :: _ => Returned (good_channels, imperfect_channels, priority)
  | [] =>
      match fuel with
      | O => OutOfFuel
      | S fuel' =>
          '(good_channels', imperfect_channels') ←
            scan_carriers c_i c_j channel_list priority;
          escalate fuel' c_i c_j channel_list good_channels' imperfect_channels'
            (priority + 1)
      end
  end.

(** The body of [for each_new_carrier in new_carrier_list]. *)
Definition allocate_carrier (fuel : nat) (s : state) (each_new_carrier : carrier_info)
  : outcome processed_carrier * state :=
  let '(c_i, c_j, priority, u_code) := process_new_carrier each_new_carrier in
  match
    ('(good_channels, imperfect) ← scan_carriers c_i c_j (channel_list s) priority;
     escalate fuel c_i c_j (channel_list s) good_channels imperfect priority)
  with
  | Returned (good_channels, imperfect, priority) =>
      let processed := Processed each_new_carrier imperfect good_channels priority in
      match getitem good_channels 0 with
      | Returned channel =>
          match assign_carrier s (nc_i each_new_carrier) (nc_j each_new_carrier)
                  channel (nc_ucode each_new_carrier) (nc_priority each_new_carrier)
          with
          | (Returned _, s') => (Returned processed, s')
          | (Raised e, s') => (Raised e, s')
          | (OutOfFuel, s') => (OutOfFuel, s')
          end
      | Raised e => (Raised e, s)
      | OutOfFuel => (OutOfFuel, s)
      end
  | Raised e => (Raised e, s)
  | OutOfFuel => (OutOfFuel, s)
  end.

Fixpoint allocate_carriers (fuel : nat) (s : state) (new_carrier_list : list carrier_info)
  : outcome (list processed_carrier) * state :=
  match new_carrier_list with
  | [] => (Returned [], s)
  | each_new_carrier :: rest =>
      match allocate_carrier fuel s each_new_carrier with
      | (Returned processed, s') =>
          match allocate_carriers fuel s' rest with
          | (Returned others, s'') => (Returned (processed :: others), s'')
          | r => r
          end
      | (Raised e, s') => (Raised e, s')
      | (OutOfFuel, s') => (OutOfFuel, s')
      end
  end.

(** [base_carrier_manager] with [data_file = None] and
    [return_format = 'read']. *)
Definition base_carrier_manager (fuel : nat) (new_carrier_list : list carrier_info)
    (n_i n_j channels : nat) (data : list raw_carrier)
  : outcome (state * list processed_carrier) :=
  s ← (if decide (0 < length data)%nat then import_data data n_i n_j channels
       else Returned (State (np_zeros (n_i + 4) (n_j + 8) 40) ∅));
  match allocate_carriers fuel s new_carrier_list with
  | (Returned new_carrier_list', s') => Returned (s', new_carrier_list')
  | (Raised e, _) => Raised e
  | (OutOfFuel, _) => OutOfFuel
  end.

(** The local variables of [deallocate_carrier] that its handler reads:
    [i, j, channel, ucode] are bound by the split, [priority] by the lookup. *)
Record dealloc_locals : Type := Locals {
  split_vars : option (string * string * string * string);
  priority_var : option Z
}.

(** The [try] block of [deallocate_carrier]: outcome, locals bound so far,
    and the state as the block leaves it. *)
Definition deallocate_try (carrier_code : string) (s : state)
  : outcome unit * dealloc_locals * state :=
  match re_split ":" carrier_code with
  | [i; j; channel; ucode] =>
      let split := Some (i, j, channel, ucode) in
      match allocated_carriers s !! carrier_code with
      | Some priority =>
          let s1 := State (channel_list s) (delete carrier_code (allocated_carriers s)) in
          match (i' ← py_int i;
                 row ← getitem (channel_list s) i';
                 j' ← py_int j;
                 col ← getitem row j';
                 channel' ← py_int channel;
                 grid_set (channel_list s) i' j' channel' (Returned 0))
          with
          | Returned g =>
              (Returned (), Locals split (Some priority), State g (allocated_carriers s1))
          | Raised e => (Raised e, Locals split (Some priority), s1)
          | OutOfFuel => (OutOfFuel, Locals split (Some priority), s1)
          end
      | None => (Raised KeyError, Locals split None, s)
      end
  | _ => (Raised ValueError, Locals None None, s)
  end.

(** The [except] block: it calls [assign_carrier] with the locals.  A name
    that was never bound raises UnboundLocalError; when all are bound, the
    indices handed to [assign_carrier] are the strings of the split, and
    numpy raises IndexError on an index that is a string.  The [print] and
    the [return] after the call are reached in neither case. *)
Definition deallocate_except (locals : dealloc_locals) (s : state) : outcome unit * state :=
  match split_vars locals, priority_var locals with
  | Some _, Some _ => (Raised IndexError, s)
  | _, _ => (Raised UnboundLocalError, s)
  end.

Definition deallocate_carrier (carrier_code : string) (s : state) : outcome unit * state :=
  match deallocate_try carrier_code s with
  | (Returned _, _, s') => (Returned (), s')
  | (Raised _, locals, s') => deallocate_except locals s'
  | (OutOfFuel, _, s') => (OutOfFuel, s')
  end.

(** * Vocabulary of the properties *)

Fixpoint no_colon (s : string) : Prop :=
  match s with
  | EmptyString => True
  | String a s' => a ≠ ":"%char ∧ no_colon s'
  end.

Definition in_range (len : nat) (k : Z) : Prop :=
  - Z.of_nat len <= k < Z.of_nat len.

(** The position a Python index denotes in a sequence of length [len]. *)
Definition resolve (len : nat) (k : Z) : nat :=
  if decide (0 <= k) then Z.to_nat k else Z.to_nat (Z.of_nat len + k).

(** A numpy array is rectangular. *)
Record grid_shape (g : grid) (N M C : nat) : Prop := GridShape {
  shape_rows : length g = N;
  shape_cols : ∀ a row, g !! a = Some row -> length row = M;
  shape_chans : ∀ a row b col, g !! a = Some row -> row !! b = Some col -> length col = C
}.

Definition cell_at (g : grid) (a b c : nat) : Z :=
  default 0 (row ← g !! a; col ← row !! b; col !! c).

Definition write_at (g : grid) (a b c : nat) (v : Z) : grid :=
  match g !! a with
  | Some row =>
      match row !! b with
      | Some col => <[a := <[b := <[c := v]> col]> row]> g
      | None => g
      end
  | None => g
  end.

(** The scan in the words of the specification: a channel is occupied at a
    beam when the cell holds something other than 0; its score is 100 if it
    is occupied at the beam itself, plus 1 for every neighbour coordinate
    where it is occupied. *)
Definition occupied (g : grid) (i j channel : Z) : Prop :=
  match grid_get g i j channel with
  | Returned v => v ≠ 0
  | _ => False
  end.

#[global] Instance occupied_dec (g : grid) (i j channel : Z) :
  Decision (occupied g i j channel).
Proof. unfold occupied. destruct (grid_get g i j channel); apply _. Defined.

Definition spec_score (g : grid) (beam_i beam_j channel : Z) : Z :=
  (if decide (occupied g beam_i beam_j channel) then 100 else 0)
  + Z.of_nat (length (filter (fun c => occupied g c.1 c.2 channel)
                        (create_neighbour_coords beam_i beam_j))).

Definition spec_admissible (g : grid) (beam_i beam_j threshold : Z) : list Z :=
  filter (fun channel => spec_score g beam_i beam_j channel <= threshold) (seqZ 0 40).

(** A beam can be scanned when it and its 18 neighbours are rows and columns
    of the grid (counted from either end, as numpy does). *)
Definition scannable (N M : nat) (c_i c_j : Z) : Prop :=
  in_range N (c_i - 2) ∧ in_range N (c_i + 2)
  ∧ in_range M (c_j - 4) ∧ in_range M (c_j + 4).

Definition request_ok (N M fuel : nat) (r : carrier_info) : Prop :=
  scannable N M (nc_i r) (nc_j r)
  ∧ (∃ v, py_float (nc_ucode r) = Returned v)
  ∧ (Z.to_nat (119 - nc_priority r) <= fuel)%nat.


(** Every carrier code of the dict names a slot that is occupied. *)
Definition registry_consistent (s : state) : Prop :=
  ∀ i j channel u,
    is_Some (allocated_carriers s !! carrier_code_of i j channel u) ->
    occupied (channel_list s) i j channel.

(** No two carrier codes of the dict share beam and channel. *)
Definition no_collision (s : state) : Prop :=
  ∀ i j channel u u',
    is_Some (allocated_carriers s !! carrier_code_of i j channel u) ->
    is_Some (allocated_carriers s !! carrier_code_of i j channel u') ->
    u = u'.

Definition request_fits (N M fuel : nat) (r : carrier_info) : Prop :=
  scannable N M (nc_i r) (nc_j r)
  ∧ (∃ v, py_float (nc_ucode r) = Returned v ∧ v ≠ 0)
  ∧ (Z.to_nat (119 - nc_priority r) <= fuel)%nat.

(** Every carrier code of the dict is the code of a slot of the grid, with
    an identity free of colons: what [assign_carrier] and [convert_from_raw]
    put there. *)
Definition registry_addressable (s : state) (N M C : nat) : Prop :=
  ∀ k, is_Some (allocated_carriers s !! k) ->
       ∃ i j channel u,
         k = carrier_code_of i j channel u ∧ no_colon u
         ∧ in_range N i ∧ in_range M j ∧ in_range C channel.

Definition code_of_raw (c : raw_carrier) : string :=
  carrier_code_of (raw_i c) (raw_j c) (raw_channel c) (raw_ucode c).

(** Every carrier code of the dict is the code of a slot of an [N] by [M] by
    [C] grid, with a numeric identity. *)
Definition registry_loadable (s : state) (N M C : nat) : Prop :=
  ∀ k, is_Some (allocated_carriers s !! k) ->
       ∃ i j channel u v,
         k = carrier_code_of i j channel u ∧ py_float u = Returned v
         ∧ in_range N i ∧ in_range M j ∧ in_range C channel.

Definition raw_loadable (N M C : nat) (c : raw_carrier) : Prop :=
  (∃ v, py_float (raw_ucode c) = Returned v)
  ∧ in_range N (raw_i c) ∧ in_range M (raw_j c) ∧ in_range C (raw_channel c).

(** The score vector [scan_carriers] returns on a grid of [C] channels: the
    channels past the 40 it scans keep their initial 0. *)
Definition padded_scores (g : grid) (c_i c_j : Z) (C : nat) : list Z :=
  (spec_score g c_i c_j <$> seqZ 0 40) ++ replicate (C - 40) 0.

(** ** Inputs and results of the examples *)

(** [n] new carriers for beam [(i, j)], all of priority 0, with the
    identities '1' .. 'n'. *)
Definition carriers_at (i j : Z) (n : nat) : list carrier_info :=
  (fun k => CarrierInfo i j 0 (pretty (Z.of_nat k))) <$> seq 1 n.

(** ** The random generation of carriers *)

(** [np.random.randint(low, high)]: ValueError when the range is empty,
    otherwise a value of [low .. high - 1].  [draw] is what the generator
    supplies; every value of the range is the result for some draw. *)
Definition randint (low high draw : Z) : outcome Z :=
  if decide (low < high) then Returned (low + draw `mod` (high - low))
  else Raised ValueError.

(** The elements of [arr], counted from position [n], whose position is not
    in [positions]. *)
Fixpoint delete_positions (positions : list nat) (n : nat) (arr : list Z) : list Z :=
  match arr with
  | [] => []
  | x :: arr' =>
      if decide (n ∈ positions) then delete_positions positions (S n) arr'
      else x :: delete_positions positions (S n) arr'
  end.

(** [np.delete(arr, obj)] for a list of integer positions: a position out of
    range raises IndexError, a negative one counts from the end, and the
    elements at the other positions are returned in their order. *)
Definition np_delete (arr : list Z) (obj : list Z) : outcome (list Z) :=
  positions ← for_each (fun positions k =>
                          n ← py_index (length arr) k;
                          Returned (positions ++ [n])) [] obj;
  Returned (delete_positions positions 0 arr).

(** [generate_random_carrier]: [keys] is the order in which the dict is
    walked, the four draws are those of the four calls of
    [np.random.randint], in the order of the calls. *)
Definition generate_random_carrier (n_i n_j : nat) (keys : list string)
    (draw_i draw_j draw_u draw_p : Z) : outcome carrier_info :=
  c_i ← randint 2 (Z.of_nat n_i + 2) draw_i;
  c_j ← randint 4 (Z.of_nat n_j + 4) draw_j;
  active_ucodes ←
    for_each (fun active_ucodes carrier =>
                u ← getitem (re_split ":" carrier) 3;
                n ← py_int u;
                Returned (active_ucodes ++ [n])) [] keys;
  carriers ← np_delete (seqZ 0 (Z.of_nat ((n_i + 4) * (n_j + 8) * 40))) active_ucodes;
  ucode_element ← randint 0 (Z.of_nat (length carriers)) draw_u;
  ucode ← getitem carriers ucode_element;
  priority ← randint 0 10 draw_p;
  Returned (CarrierInfo c_i c_j priority (pretty ucode)).

(** [select_random_carrier]: [keys] is [list(allocated_carriers.keys())],
    [draw] the draw of the call of [np.random.randint]. *)
Definition select_random_carrier (keys : list string) (draw : Z) : outcome string :=
  random_key ← randint 0 (Z.of_nat (length keys)) draw;
  getitem keys random_key.

(** The body of the loop of [randomly_generate_carriers], for the carrier
    that [generate_random_carrier] drew: the state is exported, handed to
    [base_carrier_manager] as data together with the one new carrier, and
    the first two components of the result are the next state.  [keys] is
    the order in which the export walks the dict. *)
Definition generation_step (fuel : nat) (keys : list string) (s : state)
    (new_carrier : carrier_info) (n_i n_j channels : nat) : outcome state :=
  raw ← convert_to_raw keys s;
  '(s', _) ← base_carrier_manager fuel [new_carrier] n_i n_j channels raw;
  Returned s'.

(** ** Vocabulary of the further properties *)

(** An outcome of indexing alone: a value or IndexError. *)
Definition index_only {A : Type} (r : outcome A) : Prop :=
  match r with
  | Returned _ => True
  | Raised e => e = IndexError
  | OutOfFuel => False
  end.

(** The 18 offsets [create_neighbour_coords] adds to the centre, in the
    order of its three loops. *)
Definition neighbour_offsets_list : list (Z * Z) :=
  [ (-1, -1); (-1, 1); (-1, -3); (-1, 3); (1, -1); (1, 1); (1, -3); (1, 3);
    (0, -2); (0, 2); (0, -4); (0, 4);
    (-2, -1); (-2, 0); (-2, 1); (2, -1); (2, 0); (2, 1) ].

(** What one occupied slot at beam [b] adds to the score of its channel in a
    scan of beam [centre]: 100 at the beam itself, 1 at a neighbour. *)
Definition penalty (centre b : Z * Z) : Z :=
  if decide (b = centre) then 100 else 1.

(** A coordinate of the 19-beam region of the centre [(c_i, c_j)]. *)
Definition in_region (c_i c_j : Z) (x : Z * Z) : Prop :=
  x = (c_i, c_j) ∨ x ∈ create_neighbour_coords c_i c_j.

(** Every carrier code of the dict ends in the decimal form of a number of
    [0 .. total - 1]: the identities [generate_random_carrier] hands out. *)
Definition registry_numbered (s : state) (total : Z) : Prop :=
  ∀ k, is_Some (allocated_carriers s !! k) ->
       ∃ i j channel u v,
         k = carrier_code_of i j channel u ∧ py_int u = Returned v ∧ 0 <= v < total.

(** A grid with the value [v] on the 40 channels of the cell [(a, b)]. *)
Definition fill_beam (g : grid) (a b : nat) (v : Z) : grid :=
  foldr (fun c h => write_at h a b c v) g (seq 0 40).

(** ** float64 priorities and int64 coordinates *)

(** The float64 nearest to an integer, a tie going to the even mantissa:
    what [float(n)] holds, and what a float64 sum holds when the exact sum
    is [n].  Integers of magnitude up to 2^53 are held as they are.
    (Magnitudes from 2^1024 on, which float64 holds as infinity, are not
    modelled.) *)
Definition f64_round (n : Z) : Z :=
  let a := Z.abs n in
  if decide (a < 2 ^ 53) then n
  else
    let e := Z.log2 a - 52 in
    let q := a / 2 ^ e in
    let r := a mod 2 ^ e in
    let half := 2 ^ (e - 1) in
    let q' := if decide (half < r ∨ (r = half ∧ Z.odd q = true)) then q + 1 else q in
    Z.sgn n * (q' * 2 ^ e).

(** The priorities that float64 holds exactly and counts in steps of
    one. *)
Definition exact_priority (p : Z) : Prop := - 2 ^ 53 <= p <= 2 ^ 53.



(** The element types [np.array] chooses among for Python integers. *)
Inductive dtype : Set := int64 | uint64 | float64 | object.

(** The element type of [np.array] on a list of Python integers.  Each
    value is taken as int64 when it fits, as uint64 when it is 2^63 or more
    and fits, as an object otherwise, and the types are promoted: int64 when
    every value is int64, uint64 when every value is uint64, float64 when
    int64 and uint64 values meet, object when a value fits neither; float64
    for the empty list. *)
Definition np_array_dtype (values : list Z) : dtype :=
  if decide (values = []) then float64
  else if decide (Forall (fun v => - 2 ^ 63 <= v < 2 ^ 63) values) then int64
  else if decide (Forall (fun v => 2 ^ 63 <= v < 2 ^ 64) values) then uint64
  else if decide (Forall (fun v => - 2 ^ 63 <= v < 2 ^ 64) values) then float64
  else object.

(** [np.array(coords)] for a list of pairs of Python integers: the element
    type and the rows as the array holds them, rounded when the element type
    is float64. *)
Definition np_array (coords : list (Z * Z)) : dtype * list (Z * Z) :=
  let d := np_array_dtype (coords ≫= fun c => [c.1; c.2]) in
  (d, match d with
      | float64 => (fun c => (f64_round c.1, f64_round c.2)) <$> coords
      | _ => coords
      end).

(** What [create_neighbour_coords] returns, [np.array(coords)]; the list
    [create_neighbour_coords] above is [coords], and the rows of the array
    whenever its element type is int64. *)
Definition neighbour_array (c_i c_j : Z) : dtype * list (Z * Z) :=
  np_array (create_neighbour_coords c_i c_j).

(** A centre whose 18 neighbour coordinates all fit int64. *)
Definition int64_centre (c_i c_j : Z) : Prop :=
  (- 2 ^ 63 + 2 <= c_i < 2 ^ 63 - 2) ∧ (- 2 ^ 63 + 4 <= c_j < 2 ^ 63 - 4).

(** A character of no literal that [float] reads: an ASCII letter other
    than those of an exponent, of [inf], [infinity] and [nan]. *)
Definition foreign_letter (a : ascii) : bool :=
  let n := N_of_ascii a in
  let lower := if ((65 <=? n) && (n <=? 90))%N then (n + 32)%N else n in
  ((97 <=? lower) && (lower <=? 122))%N
  && negb (bool_decide (lower ∈ [97; 101; 102; 105; 110; 116; 121]%N)).

Fixpoint has_foreign_letter (s : string) : bool :=
  match s with
  | EmptyString => false
  | String a s' => foreign_letter a || has_foreign_letter s'
  end.


(** * Properties *)

Lemma bind_Returned {A B : Type} (a : A) (f : A -> outcome B) :
  (Returned a ≫= f) = f a.
Proof. reflexivity. Qed.

(** ** Carrier codes: printing, splitting and reading back *)

Lemma pretty_N_char_no_colon (d : N) : pretty_N_char d ≠ ":"%char.
Proof. unfold pretty_N_char. repeat case_match; discriminate. Qed.

Lemma pretty_N_go_no_colon (x : N) (s : string) :
  no_colon s -> no_colon (pretty_N_go x s).
Proof.
  revert s. induction (N.lt_wf_0 x) as [x _ IH]; intros s Hs.
  destruct (decide (x = 0)%N) as [->|Hx].
  - by rewrite pretty_N_go_0.
  - rewrite pretty_N_go_step by lia.
    apply IH; [apply N.div_lt; lia|].
    split; [apply pretty_N_char_no_colon | done].
Qed.

Lemma pretty_Z_no_colon (z : Z) : no_colon (pretty z).
Proof.
  destruct z as [|p|p]; unfold pretty, pretty_Z.
  - simpl. by split.
  - unfold pretty, pretty_positive, pretty, pretty_N.
    case_decide; [lia|]. by apply pretty_N_go_no_colon.
  - simpl. split; [discriminate|].
    unfold pretty, pretty_positive, pretty, pretty_N.
    case_decide; [lia|]. by apply pretty_N_go_no_colon.
Qed.

Lemma re_split_no_colon (s : string) : no_colon s -> re_split ":" s = [s].
Proof.
  induction s as [|a s IH]; [done|]. intros [Ha Hs]; simpl.
  rewrite decide_False by done. by rewrite IH.
Qed.

Lemma re_split_field (a rest : string) :
  no_colon a -> re_split ":" (a +:+ ":" +:+ rest) = a :: re_split ":" rest.
Proof.
  induction a as [|c a IH]; [done|].
  intros [Hc Ha]. simpl.
  rewrite decide_False by done. by rewrite IH.
Qed.

Lemma re_split_carrier_code (i j channel : Z) (u_code : string) :
  no_colon u_code ->
  re_split ":" (carrier_code_of i j channel u_code)
  = [pretty i; pretty j; pretty channel; u_code].
Proof.
  intros Hu. unfold carrier_code_of.
  rewrite !re_split_field by apply pretty_Z_no_colon.
  by rewrite re_split_no_colon.
Qed.

Lemma append_nil (s : string) : "" +:+ s = s.
Proof. reflexivity. Qed.

Lemma append_cons (c : ascii) (a s : string) : String c a +:+ s = String c (a +:+ s).
Proof. reflexivity. Qed.

Lemma field_inj (a a' rest rest' : string) :
  no_colon a -> no_colon a' ->
  a +:+ ":" +:+ rest = a' +:+ ":" +:+ rest' -> a = a' ∧ rest = rest'.
Proof.
  revert a'. induction a as [|c a IH]; intros [|c' a'];
    rewrite ?append_cons, ?append_nil; simpl.
  - intros _ _ [= ->]. done.
  - intros _ [Hc _] [= <- _]. done.
  - intros [Hc _] _ [= -> _]. done.
  - intros [_ Ha] [_ Ha'] [= -> Heq].
    destruct (IH a' Ha Ha' Heq) as [-> ->]. done.
Qed.

Lemma carrier_code_of_inj (i j channel i' j' channel' : Z) (u u' : string) :
  carrier_code_of i j channel u = carrier_code_of i' j' channel' u' ->
  i = i' ∧ j = j' ∧ channel = channel' ∧ u = u'.
Proof.
  unfold carrier_code_of. intros H.
  apply field_inj in H as [Hi H]; [|apply pretty_Z_no_colon..].
  apply field_inj in H as [Hj H]; [|apply pretty_Z_no_colon..].
  apply field_inj in H as [Hc H]; [|apply pretty_Z_no_colon..].
  by apply (inj pretty) in Hi, Hj, Hc.
Qed.

Lemma digit_value_pretty (d : N) :
  (d < 10)%N -> digit_value (pretty_N_char d) = Some (Z.of_N d).
Proof.
  intros Hd.
  assert (d = 0 ∨ d = 1 ∨ d = 2 ∨ d = 3 ∨ d = 4 ∨ d = 5 ∨ d = 6 ∨ d = 7
          ∨ d = 8 ∨ d = 9)%N as Hcases by lia.
  destruct_or!; subst; reflexivity.
Qed.

Lemma digits_value_pretty_go (x : N) (s : string) :
  digits_value 0 (pretty_N_go x s) = digits_value (Z.of_N x) s.
Proof.
  revert s. induction (N.lt_wf_0 x) as [x _ IH]; intros s.
  destruct (decide (x = 0)%N) as [->|Hx].
  - by rewrite pretty_N_go_0.
  - rewrite pretty_N_go_step by lia.
    rewrite IH by (apply N.div_lt; lia). simpl.
    rewrite digit_value_pretty by (apply N.mod_lt; lia).
    f_equal. pose proof (N.div_mod x 10). lia.
Qed.

Lemma py_int_pretty_pos (p : positive) :
  ∃ a s, pretty_N_go (N.pos p) "" = String a s ∧ a ≠ "-"%char
         ∧ digits_value 0 (String a s) = Some (Z.pos p).
Proof.
  pose proof (digits_value_pretty_go (N.pos p) "") as Hd. simpl in Hd.
  destruct (pretty_N_go (N.pos p) "") as [|a s] eqn:E.
  - simpl in Hd. discriminate.
  - exists a, s. split_and!; [done| |done].
    intros ->. by apply (pretty_N_go_ne_dash (N.pos p) "" s).
Qed.

Lemma py_int_pretty (z : Z) : py_int (pretty z) = Returned z.
Proof.
  destruct z as [|p|p].
  - reflexivity.
  - destruct (py_int_pretty_pos p) as (a & s & E & Ha & Hd).
    unfold pretty, pretty_Z, pretty, pretty_positive, pretty, pretty_N.
    case_decide; [lia|]. rewrite E. unfold py_int.
    rewrite decide_False by done. by rewrite Hd.
  - destruct (py_int_pretty_pos p) as (a & s & E & Ha & Hd).
    unfold pretty, pretty_Z, pretty, pretty_positive, pretty, pretty_N.
    case_decide; [lia|]. rewrite E, append_cons, append_nil. unfold py_int.
    rewrite decide_True by done. by rewrite Hd.
Qed.

Lemma digits_value_no_colon (s : string) (acc n : Z) :
  digits_value acc s = Some n -> no_colon s.
Proof.
  revert acc. induction s as [|a s IH]; intros acc; simpl; [done|].
  destruct (digit_value a) as [d|] eqn:Ha; [|done].
  intros H. split; [|by eapply IH].
  intros ->. discriminate Ha.
Qed.

Lemma py_int_no_colon (s : string) (n : Z) : py_int s = Returned n -> no_colon s.
Proof.
  destruct s as [|a s]; [done|]. unfold py_int.
  case_decide as Ha.
  - subst a. destruct s as [|b s]; [done|].
    destruct (digits_value 0 (String b s)) eqn:E; [|done].
    intros _. split; [discriminate|]. by eapply digits_value_no_colon.
  - destruct (digits_value 0 (String a s)) eqn:E; [|done].
    intros _. by eapply digits_value_no_colon.
Qed.

(** ** Indexing and the shape of the grid *)

Lemma py_index_in_range (len : nat) (k : Z) :
  in_range len k -> py_index len k = Returned (resolve len k).
Proof.
  unfold in_range, py_index, resolve. intros H.
  repeat case_decide; try lia; done.
Qed.

Lemma py_index_out_of_range (len : nat) (k : Z) :
  ¬ in_range len k -> py_index len k = Raised IndexError.
Proof.
  unfold in_range, py_index. intros H. repeat case_decide; try lia; done.
Qed.

Lemma resolve_lt (len : nat) (k : Z) : in_range len k -> (resolve len k < len)%nat.
Proof. unfold in_range, resolve. intros H. case_decide; lia. Qed.

Lemma getitem_in_range {A : Type} (l : list A) (k : Z) (x : A) :
  in_range (length l) k -> l !! resolve (length l) k = Some x ->
  getitem l k = Returned x.
Proof.
  intros Hk Hx. unfold getitem. rewrite py_index_in_range by done.
  simpl. by rewrite Hx.
Qed.

Lemma setitem_in_range {A : Type} (l : list A) (k : Z) (x : A) :
  in_range (length l) k -> setitem l k x = Returned (<[resolve (length l) k := x]> l).
Proof. intros Hk. unfold setitem. by rewrite py_index_in_range. Qed.

Lemma np_zeros_shape (N M C : nat) : grid_shape (np_zeros N M C) N M C.
Proof.
  unfold np_zeros. split.
  - by rewrite length_replicate.
  - intros a row [-> _]%lookup_replicate. by rewrite length_replicate.
  - intros a row b col [-> _]%lookup_replicate [-> _]%lookup_replicate.
    by rewrite length_replicate.
Qed.

Lemma cell_at_np_zeros (N M C a b c : nat) : cell_at (np_zeros N M C) a b c = 0.
Proof.
  unfold cell_at.
  destruct (np_zeros N M C !! a) as [row|] eqn:Ea; simpl; [|reflexivity].
  unfold np_zeros in Ea. apply lookup_replicate in Ea as [-> _].
  destruct (replicate M (replicate C 0) !! b) as [col|] eqn:Eb; simpl; [|reflexivity].
  apply lookup_replicate in Eb as [-> _].
  destruct (replicate C 0 !! c) as [v|] eqn:Ec; simpl; [|reflexivity].
  by apply lookup_replicate in Ec as [-> _].
Qed.

Section Shaped.
Context (g : grid) (N M C : nat) (Hshape : grid_shape g N M C).

Lemma shaped_lookup (a b c : nat) :
  (a < N)%nat -> (b < M)%nat -> (c < C)%nat ->
  ∃ row col, g !! a = Some row ∧ row !! b = Some col
             ∧ length row = M ∧ length col = C
             ∧ col !! c = Some (cell_at g a b c).
Proof.
  intros Ha Hb Hc. destruct Hshape as [HN HM HC].
  destruct (lookup_lt_is_Some_2 g a) as [row Hrow]; [lia|].
  pose proof (HM _ _ Hrow) as Hlen.
  destruct (lookup_lt_is_Some_2 row b) as [col Hcol]; [lia|].
  pose proof (HC _ _ _ _ Hrow Hcol) as Hlen'.
  destruct (lookup_lt_is_Some_2 col c) as [v Hv]; [lia|].
  exists row, col. split_and!; try done.
  unfold cell_at. rewrite Hrow. simpl. rewrite Hcol. simpl. by rewrite Hv.
Qed.

Lemma grid_get_shaped (i j channel : Z) :
  in_range N i -> in_range M j -> in_range C channel ->
  grid_get g i j channel
  = Returned (cell_at g (resolve N i) (resolve M j) (resolve C channel)).
Proof.
  intros Hi Hj Hc.
  destruct (shaped_lookup (resolve N i) (resolve M j) (resolve C channel))
    as (row & col & Hrow & Hcol & Hlr & Hlc & Hv); [by apply resolve_lt..|].
  pose proof (shape_rows _ _ _ _ Hshape) as HN.
  unfold grid_get.
  rewrite (getitem_in_range g i row) by (rewrite ?HN; done). simpl.
  rewrite (getitem_in_range row j col) by (rewrite ?Hlr; done). simpl.
  apply getitem_in_range; by rewrite Hlc.
Qed.

Lemma grid_get_row_out (i j channel : Z) :
  ¬ in_range N i -> grid_get g i j channel = Raised IndexError.
Proof.
  intros Hi. unfold grid_get, getitem.
  rewrite (shape_rows _ _ _ _ Hshape), py_index_out_of_range by done. done.
Qed.

Lemma grid_set_shaped (i j channel v : Z) :
  in_range N i -> in_range M j -> in_range C channel ->
  grid_set g i j channel (Returned v)
  = Returned (write_at g (resolve N i) (resolve M j) (resolve C channel) v).
Proof.
  intros Hi Hj Hc.
  destruct (shaped_lookup (resolve N i) (resolve M j) (resolve C channel))
    as (row & col & Hrow & Hcol & Hlr & Hlc & Hv); [by apply resolve_lt..|].
  pose proof (shape_rows _ _ _ _ Hshape) as HN.
  unfold grid_set, write_at.
  rewrite (getitem_in_range g i row) by (rewrite ?HN; done). simpl.
  rewrite (getitem_in_range row j col) by (rewrite ?Hlr; done). simpl.
  rewrite Hlc, py_index_in_range by done. simpl.
  rewrite setitem_in_range by (rewrite ?Hlr; done). simpl.
  rewrite setitem_in_range by (rewrite ?HN; done).
  by rewrite Hrow, Hcol, Hlr, HN.
Qed.

Lemma write_at_shape (a b c : nat) (v : Z) : grid_shape (write_at g a b c v) N M C.
Proof.
  destruct Hshape as [HN HM HC]. unfold write_at.
  destruct (g !! a) as [row|] eqn:Hrow; [|done].
  destruct (row !! b) as [col|] eqn:Hcol; [|done].
  split.
  - by rewrite length_insert.
  - intros a' row' [[-> [<- _]]|[_ H]]%list_lookup_insert_Some.
    + rewrite length_insert. eauto.
    + eauto.
  - intros a' row' b' col' [[-> [<- _]]|[_ H]]%list_lookup_insert_Some.
    + intros [[-> [<- _]]|[_ H']]%list_lookup_insert_Some.
      * rewrite length_insert. eauto.
      * eauto.
    + eauto.
Qed.

Lemma cell_at_write_at (a b c : nat) (v : Z) (a' b' c' : nat) :
  (a < N)%nat -> (b < M)%nat -> (c < C)%nat ->
  cell_at (write_at g a b c v) a' b' c'
  = if decide (a' = a ∧ b' = b ∧ c' = c) then v else cell_at g a' b' c'.
Proof.
  intros Ha Hb Hc.
  destruct (shaped_lookup a b c) as (row & col & Hrow & Hcol & Hlr & Hlc & Hv);
    [done..|].
  pose proof (shape_rows _ _ _ _ Hshape) as HN.
  unfold write_at. rewrite Hrow, Hcol. unfold cell_at.
  destruct (decide (a' = a)) as [->|Hna].
  - rewrite list_lookup_insert_eq by lia. rewrite Hrow. simpl.
    destruct (decide (b' = b)) as [->|Hnb].
    + rewrite list_lookup_insert_eq by lia. rewrite Hcol. simpl.
      destruct (decide (c' = c)) as [->|Hnc].
      * rewrite list_lookup_insert_eq by lia. by rewrite decide_True.
      * rewrite list_lookup_insert_ne by done. by rewrite decide_False by lia.
    + rewrite list_lookup_insert_ne by done. by rewrite decide_False by lia.
  - rewrite list_lookup_insert_ne by done. by rewrite decide_False by lia.
Qed.
End Shaped.

(** ** The neighbourhood *)

Lemma create_neighbour_coords_eq (c_i c_j : Z) :
  create_neighbour_coords c_i c_j
  = [ (c_i - 1, c_j - 1); (c_i - 1, c_j + 1); (c_i - 1, c_j - 3); (c_i - 1, c_j + 3);
      (c_i + 1, c_j - 1); (c_i + 1, c_j + 1); (c_i + 1, c_j - 3); (c_i + 1, c_j + 3);
      (c_i, c_j - 2); (c_i, c_j + 2); (c_i, c_j - 4); (c_i, c_j + 4);
      (c_i - 2, c_j - 1); (c_i - 2, c_j); (c_i - 2, c_j + 1);
      (c_i + 2, c_j - 1); (c_i + 2, c_j); (c_i + 2, c_j + 1) ].
Proof. reflexivity. Qed.

Lemma neighbour_offsets (c_i c_j i j : Z) :
  (i, j) ∈ create_neighbour_coords c_i c_j ->
  -2 <= i - c_i <= 2 ∧ -4 <= j - c_j <= 4 ∧ (i, j) ≠ (c_i, c_j).
Proof.
  rewrite create_neighbour_coords_eq, !elem_of_cons, elem_of_nil.
  intros H. destruct_or!; try done; simplify_eq;
    (split; [lia|split; [lia|intros [=]; lia]]).
Qed.

(** Where the 18 coordinates fit int64 the array holds the list as it
    is. *)
Lemma neighbour_array_int64 (c_i c_j : Z) :
  int64_centre c_i c_j ->
  neighbour_array c_i c_j = (int64, create_neighbour_coords c_i c_j).
Proof.
  unfold int64_centre. intros Hc.
  assert (Forall (fun v => - 2 ^ 63 <= v < 2 ^ 63)
            (create_neighbour_coords c_i c_j ≫= fun c => [c.1; c.2])) as Hall.
  { apply Forall_bind, Forall_forall. intros [i j] Hin%neighbour_offsets.
    repeat constructor; simpl; lia. }
  unfold neighbour_array, np_array, np_array_dtype.
  rewrite decide_False by (by rewrite create_neighbour_coords_eq).
  by rewrite decide_True.
Qed.

(** C9, as the code has it: [create_neighbour_coords] is a function of the
    centre alone and returns [np.array(coords)].  For every centre whose 18
    neighbour coordinates fit int64 the array is an int64 array of 18 rows,
    no two equal and none the centre; for a centre of the logical [n_i] by
    [n_j] extent, which sits at offset (2, 4) in the grid, every row lies
    inside the padded extent of [n_i + 4] rows and [n_j + 8] columns. *)
Theorem neighbours_contract (c_i c_j : Z) :
  int64_centre c_i c_j ->
  neighbour_array c_i c_j = (int64, create_neighbour_coords c_i c_j)
  ∧ length (neighbour_array c_i c_j).2 = 18%nat
  ∧ NoDup (neighbour_array c_i c_j).2
  ∧ ((c_i, c_j) ∉ (neighbour_array c_i c_j).2)
  ∧ ∀ n_i n_j : nat,
      (2 <= c_i < Z.of_nat n_i + 2) -> (4 <= c_j < Z.of_nat n_j + 4) ->
      ∀ i j, (i, j) ∈ (neighbour_array c_i c_j).2 ->
             0 <= i < Z.of_nat (n_i + 4) ∧ 0 <= j < Z.of_nat (n_j + 8).
Proof.
  intros Hc. rewrite (neighbour_array_int64 c_i c_j Hc). cbn [snd].
  split; [done|]. split; [reflexivity|]. split; [|split].
  - rewrite create_neighbour_coords_eq.
    repeat (apply NoDup_cons; split;
            [rewrite ?not_elem_of_cons; split_and?;
             first [apply not_elem_of_nil | intros [=]; lia]|]).
    apply NoDup_nil_2.
  - intros H%neighbour_offsets. by destruct H as (_ & _ & H).
  - intros n_i n_j Hi Hj i j H%neighbour_offsets. lia.
Qed.

Lemma neighbours_contract_witness :
  neighbour_array 5 5 = (int64, create_neighbour_coords 5 5)
  ∧ length (neighbour_array 5 5).2 = 18%nat
  ∧ NoDup (neighbour_array 5 5).2
  ∧ ((5, 5) ∉ (neighbour_array 5 5).2)
  ∧ ∀ n_i n_j : nat,
      (2 <= 5 < Z.of_nat n_i + 2) -> (4 <= 5 < Z.of_nat n_j + 4) ->
      ∀ i j, (i, j) ∈ (neighbour_array 5 5).2 ->
             0 <= i < Z.of_nat (n_i + 4) ∧ 0 <= j < Z.of_nat (n_j + 8).
Proof. apply (neighbours_contract 5 5). unfold int64_centre. lia. Defined.

(** C9 fails as stated.  At the centre (2^63 - 2, 0) the coordinate
    [c_i + 2] does not fit int64 and others are negative, so [np.array]
    falls to float64, which holds every row coordinate near 2^63 as 2^63:
    the rows 0 and 4, built from [c_i - 1] and [c_i + 1], are equal. *)
Lemma neighbours_overflow_counterexample :
  (neighbour_array (2 ^ 63 - 2) 0).1 = float64
  ∧ (neighbour_array (2 ^ 63 - 2) 0).2 !! 0%nat = Some (2 ^ 63, -1)
  ∧ (neighbour_array (2 ^ 63 - 2) 0).2 !! 4%nat = Some (2 ^ 63, -1)
  ∧ ¬ NoDup (neighbour_array (2 ^ 63 - 2) 0).2.
Proof.
  assert ((neighbour_array (2 ^ 63 - 2) 0).1 = float64
          ∧ (neighbour_array (2 ^ 63 - 2) 0).2 !! 0%nat = Some (2 ^ 63, -1)
          ∧ (neighbour_array (2 ^ 63 - 2) 0).2 !! 4%nat = Some (2 ^ 63, -1))
    as (Hd & H0 & H4) by (vm_compute; done).
  split; [exact Hd|]. split; [exact H0|]. split; [exact H4|].
  intros Hnodup. by pose proof (NoDup_lookup _ _ _ _ Hnodup H0 H4).
Qed.

(** ** The interference scan *)

Lemma scannable_centre (N M : nat) (c_i c_j : Z) :
  scannable N M c_i c_j -> in_range N c_i ∧ in_range M c_j.
Proof. unfold scannable, in_range. lia. Qed.

Lemma scannable_neighbours (N M : nat) (c_i c_j : Z) :
  scannable N M c_i c_j ->
  Forall (fun c => in_range N c.1 ∧ in_range M c.2) (create_neighbour_coords c_i c_j).
Proof.
  intros H. apply Forall_forall. intros [i j] Hin%neighbour_offsets. simpl.
  unfold scannable, in_range in *. lia.
Qed.

Lemma spec_score_bounds (g : grid) (beam_i beam_j channel : Z) :
  0 <= spec_score g beam_i beam_j channel <= 118.
Proof.
  unfold spec_score.
  pose proof (length_filter (fun c => occupied g c.1 c.2 channel)
                (create_neighbour_coords beam_i beam_j)) as Hlen.
  change (length (create_neighbour_coords beam_i beam_j)) with 18%nat in Hlen.
  case_decide; lia.
Qed.

Section Scan.
Context (g : grid) (N M C : nat) (Hshape : grid_shape g N M C).
Context (HC : (40 <= C)%nat).

Lemma occupied_shaped (i j channel : Z) :
  in_range N i -> in_range M j -> 0 <= channel < 40 ->
  grid_get g i j channel
  = Returned (cell_at g (resolve N i) (resolve M j) (Z.to_nat channel))
  ∧ (occupied g i j channel
     <-> cell_at g (resolve N i) (resolve M j) (Z.to_nat channel) ≠ 0).
Proof.
  intros Hi Hj Hc.
  assert (in_range C channel) as Hc' by (unfold in_range; lia).
  pose proof (grid_get_shaped g N M C Hshape i j channel Hi Hj Hc') as Hget.
  assert (resolve C channel = Z.to_nat channel) as Hr
    by (unfold resolve; rewrite decide_True by lia; done).
  rewrite Hr in Hget. split; [done|].
  unfold occupied. by rewrite Hget.
Qed.

Lemma imperfect_getitem (imperfect : list Z) (channel x : Z) :
  0 <= channel < Z.of_nat (length imperfect) ->
  imperfect !! Z.to_nat channel = Some x ->
  getitem imperfect channel = Returned x.
Proof.
  intros Hc Hx. apply getitem_in_range; [unfold in_range; lia|].
  unfold resolve. by rewrite decide_True by lia.
Qed.

Lemma imperfect_setitem (imperfect : list Z) (channel x : Z) :
  0 <= channel < Z.of_nat (length imperfect) ->
  setitem imperfect channel x = Returned (<[Z.to_nat channel := x]> imperfect).
Proof.
  intros Hc. rewrite setitem_in_range by (unfold in_range; lia).
  unfold resolve. by rewrite decide_True by lia.
Qed.

Lemma scan_neighbours_count (channel : Z) (coords : list (Z * Z)) :
  0 <= channel < 40 ->
  Forall (fun c => in_range N c.1 ∧ in_range M c.2) coords ->
  ∀ (imperfect : list Z) (x : Z),
    channel < Z.of_nat (length imperfect) ->
    imperfect !! Z.to_nat channel = Some x ->
    for_each (scan_neighbour g channel) imperfect coords
    = Returned (<[Z.to_nat channel :=
                   x + Z.of_nat (length (filter (fun c => occupied g c.1 c.2 channel)
                                           coords))]> imperfect).
Proof.
  intros Hc. induction 1 as [|[i j] coords [Hi Hj] _ IH]; intros imperfect x Hlen Hx.
  - simpl. rewrite Z.add_0_r. by rewrite list_insert_id.
  - simpl in Hi, Hj.
    destruct (occupied_shaped i j channel Hi Hj Hc) as [Hget Hocc].
    cbn [for_each scan_neighbour]. rewrite Hget. simpl.
    case_decide as Hv.
    + rewrite (imperfect_getitem imperfect channel x) by (done || lia). simpl.
      rewrite imperfect_setitem by lia. simpl.
      rewrite (IH _ (x + 1)).
      * rewrite list_insert_insert_eq.
        rewrite filter_cons_True by (simpl; by apply Hocc).
        simpl length. do 2 f_equal. lia.
      * by rewrite length_insert.
      * apply list_lookup_insert_eq. lia.
    + simpl. rewrite (IH _ x) by done.
      rewrite filter_cons_False by (simpl; rewrite Hocc; congruence). done.
Qed.

Context (c_i c_j : Z) (Hscan : scannable N M c_i c_j) (priority : Z).

Lemma scan_channel_score (channel : Z) (good imperfect : list Z) :
  0 <= channel < 40 ->
  channel < Z.of_nat (length imperfect) ->
  imperfect !! Z.to_nat channel = Some 0 ->
  scan_channel c_i c_j g priority (create_neighbour_coords c_i c_j)
    (good, imperfect) channel
  = Returned
      (good ++ filter (fun c => spec_score g c_i c_j c <= priority) [channel],
       <[Z.to_nat channel := spec_score g c_i c_j channel]> imperfect).
Proof.
  intros Hc Hlen H0.
  destruct (scannable_centre _ _ _ _ Hscan) as [Hi Hj].
  destruct (occupied_shaped c_i c_j channel Hi Hj Hc) as [Hget Hocc].
  pose proof (scannable_neighbours _ _ _ _ Hscan) as Hnb.
  unfold scan_channel. rewrite Hget. simpl.
  assert (∀ x imp, imp !! Z.to_nat channel = Some x ->
            length imp = length imperfect ->
            x = (if decide (occupied g c_i c_j channel) then 100 else 0) ->
            <[Z.to_nat channel := x]> imperfect = <[Z.to_nat channel := x]> imp ->
            (imperfect_channels ←
               for_each (scan_neighbour g channel) imp (create_neighbour_coords c_i c_j);
             x ← getitem imperfect_channels channel;
             if decide (x <= priority)
             then Returned (good ++ [channel], imperfect_channels)
             else Returned (good, imperfect_channels))
            = Returned
                (good ++ filter (fun c => spec_score g c_i c_j c <= priority) [channel],
                 <[Z.to_nat channel := spec_score g c_i c_j channel]> imperfect))
    as Hrest.
  { intros x imp Hx Hl -> Himp.
    rewrite (scan_neighbours_count channel _ Hc Hnb imp _) by (done || lia).
    simpl. fold (spec_score g c_i c_j channel).
    rewrite (imperfect_getitem _ channel (spec_score g c_i c_j channel)).
    - simpl.
      assert (<[Z.to_nat channel := spec_score g c_i c_j channel]> imp
              = <[Z.to_nat channel := spec_score g c_i c_j channel]> imperfect) as ->.
      { rewrite <- (list_insert_insert_eq imp _ (spec_score g c_i c_j channel)
                      (if decide (occupied g c_i c_j channel) then 100 else 0)).
        rewrite <- Himp. by rewrite list_insert_insert_eq. }
      destruct (decide (spec_score g c_i c_j channel <= priority)).
      + by rewrite filter_cons_True, filter_nil.
      + by rewrite filter_cons_False, filter_nil, app_nil_r.
    - rewrite length_insert. lia.
    - apply list_lookup_insert_eq. lia. }
  destruct (decide (cell_at g (resolve N c_i) (resolve M c_j) (Z.to_nat channel) ≠ 0))
    as [Hv|Hv].
  - rewrite imperfect_setitem by lia. simpl.
    apply (Hrest 100).
    + apply list_lookup_insert_eq. lia.
    + by rewrite length_insert.
    + rewrite decide_True; [done|by apply Hocc].
    + by rewrite list_insert_insert_eq.
  - apply (Hrest 0); try done.
    rewrite decide_False; [done|by rewrite Hocc].
Qed.

Lemma scan_channels_scores (n : nat) :
  ∀ (m : nat) (good : list Z),
    (m + n <= 40)%nat ->
    for_each (scan_channel c_i c_j g priority (create_neighbour_coords c_i c_j))
      (good, (spec_score g c_i c_j <$> seqZ 0 (Z.of_nat m)) ++ replicate (C - m) 0)
      (seqZ (Z.of_nat m) (Z.of_nat n))
    = Returned
        (good ++ filter (fun c => spec_score g c_i c_j c <= priority)
                   (seqZ (Z.of_nat m) (Z.of_nat n)),
         (spec_score g c_i c_j <$> seqZ 0 (Z.of_nat (m + n)))
         ++ replicate (C - (m + n)) 0).
Proof.
  induction n as [|n IH]; intros m good Hm.
  - simpl. rewrite app_nil_r, Nat.add_0_r. done.
  - rewrite (seqZ_cons (Z.of_nat m) (Z.of_nat (S n))) by lia. cbn [for_each].
    assert (length (spec_score g c_i c_j <$> seqZ 0 (Z.of_nat m)) = m) as Hlen
      by (rewrite length_fmap, length_seqZ; lia).
    rewrite scan_channel_score.
    + simpl.
      replace (Z.succ (Z.of_nat m)) with (Z.of_nat (S m)) by lia.
      replace (Z.pred (Z.of_nat (S n))) with (Z.of_nat n) by lia.
      replace (<[Z.to_nat (Z.of_nat m) := spec_score g c_i c_j (Z.of_nat m)]>
                 ((spec_score g c_i c_j <$> seqZ 0 (Z.of_nat m)) ++ replicate (C - m) 0))
        with ((spec_score g c_i c_j <$> seqZ 0 (Z.of_nat (S m)))
              ++ replicate (C - S m) 0).
      * rewrite (IH (S m)) by lia. rewrite <- app_assoc, <- filter_app.
        replace (S m + n)%nat with (m + S n)%nat by lia. done.
      * rewrite Nat2Z.id, (seqZ_S 0 m), fmap_app, <- app_assoc.
        rewrite insert_app_r_alt by lia. rewrite Hlen, Nat.sub_diag.
        replace (C - m)%nat with (S (C - S m)) by lia. done.
    + lia.
    + rewrite length_app, Hlen, length_replicate. lia.
    + rewrite Nat2Z.id, lookup_app_r by lia. rewrite Hlen, Nat.sub_diag.
      replace (C - m)%nat with (S (C - S m)) by lia. done.
Qed.

Lemma scan_carriers_spec :
  scan_carriers c_i c_j g priority
  = Returned (spec_admissible g c_i c_j priority,
              (spec_score g c_i c_j <$> seqZ 0 40) ++ replicate (C - 40) 0).
Proof.
  destruct (scannable_centre _ _ _ _ Hscan) as [Hi Hj].
  assert (0 < N)%nat as HN by (unfold in_range in Hi; lia).
  assert (0 < M)%nat as HM by (unfold in_range in Hj; lia).
  destruct (shaped_lookup g N M C Hshape 0 0 0) as (row & col & Hrow & Hcol & Hlr & Hlc & _);
    [lia..|].
  unfold scan_carriers.
  rewrite (getitem_in_range g 0 row);
    [|rewrite (shape_rows _ _ _ _ Hshape); unfold in_range; lia|done].
  simpl.
  rewrite (getitem_in_range row 0 col); [|rewrite Hlr; unfold in_range; lia|done].
  simpl. rewrite Hlc.
  pose proof (scan_channels_scores 40 0 [] ltac:(lia)) as H.
  rewrite Nat.sub_0_r in H. exact H.
Qed.
End Scan.

Lemma StronglySorted_filter {A : Type} (R : relation A) (P : A -> Prop)
    `{!∀ x, Decision (P x)} (l : list A) :
  StronglySorted R l -> StronglySorted R (filter P l).
Proof.
  induction 1 as [|x l Hl IH Hx]; [constructor|].
  rewrite filter_cons. case_decide; [|done].
  constructor; [done|].
  apply Forall_forall. intros y [_ Hy]%list_elem_of_filter.
  by eapply Forall_forall in Hx.
Qed.

Lemma StronglySorted_seqZ (m : Z) (n : nat) : StronglySorted Z.lt (seqZ m (Z.of_nat n)).
Proof.
  revert m. induction n as [|n IH]; intros m; [constructor|].
  rewrite seqZ_cons by lia. constructor.
  - replace (Z.pred (Z.of_nat (S n))) with (Z.of_nat n) by lia. apply IH.
  - apply Forall_seqZ. lia.
Qed.

Lemma spec_admissible_sorted (g : grid) (beam_i beam_j threshold : Z) :
  StronglySorted Z.lt (spec_admissible g beam_i beam_j threshold).
Proof. apply StronglySorted_filter, (StronglySorted_seqZ 0 40). Qed.

Lemma elem_of_spec_admissible (g : grid) (beam_i beam_j threshold channel : Z) :
  channel ∈ spec_admissible g beam_i beam_j threshold
  <-> (0 <= channel < 40) ∧ spec_score g beam_i beam_j channel <= threshold.
Proof.
  unfold spec_admissible. rewrite list_elem_of_filter, elem_of_seqZ. lia.
Qed.

Lemma spec_admissible_head (g : grid) (beam_i beam_j threshold channel : Z)
    (rest : list Z) :
  spec_admissible g beam_i beam_j threshold = channel :: rest ->
  (0 <= channel < 40) ∧ spec_score g beam_i beam_j channel <= threshold
  ∧ ∀ c, (0 <= c < 40) -> spec_score g beam_i beam_j c <= threshold -> channel <= c.
Proof.
  intros E.
  pose proof (spec_admissible_sorted g beam_i beam_j threshold) as Hs.
  rewrite E in Hs. apply StronglySorted_cons in Hs as [Hlt _].
  assert (channel ∈ spec_admissible g beam_i beam_j threshold) as Hin
    by (rewrite E; left).
  apply elem_of_spec_admissible in Hin as [Hr Hsc]. split_and!; [lia..|].
  intros c Hc Hcs.
  assert (c ∈ spec_admissible g beam_i beam_j threshold) as Hc'
    by (by apply elem_of_spec_admissible).
  rewrite E in Hc'. apply elem_of_cons in Hc' as [->|Hc']; [lia|].
  eapply Forall_forall in Hlt; [|done]. lia.
Qed.

(** C2: on a 40-channel grid and a beam that can be scanned, [scan_carriers]
    returns for every channel the score of the specification (100 if the
    channel is occupied at the beam, plus 1 for each of the 18 neighbour
    coordinates where it is occupied), returns as admissible exactly the
    channels whose score is at most the threshold, and returns them in
    ascending channel order. *)
Theorem scan_carriers_correct (g : grid) (N M : nat) (beam_i beam_j threshold : Z) :
  grid_shape g N M 40 -> scannable N M beam_i beam_j ->
  ∃ admissible scores,
    scan_carriers beam_i beam_j g threshold = Returned (admissible, scores)
    ∧ scores = (spec_score g beam_i beam_j <$> seqZ 0 40)
    ∧ (∀ channel, channel ∈ admissible
                  <-> (0 <= channel < 40) ∧ spec_score g beam_i beam_j channel <= threshold)
    ∧ StronglySorted Z.lt admissible.
Proof.
  intros Hshape Hscan.
  exists (spec_admissible g beam_i beam_j threshold),
         (spec_score g beam_i beam_j <$> seqZ 0 40).
  split_and!.
  - rewrite (scan_carriers_spec g N M 40 Hshape ltac:(lia) _ _ Hscan).
    by rewrite app_nil_r.
  - done.
  - intros channel. apply elem_of_spec_admissible.
  - apply spec_admissible_sorted.
Qed.

Lemma scan_carriers_correct_witness :
  ∃ admissible scores,
    scan_carriers 5 5 (np_zeros 18 22 40) 0 = Returned (admissible, scores)
    ∧ scores = (spec_score (np_zeros 18 22 40) 5 5 <$> seqZ 0 40)
    ∧ (∀ channel, channel ∈ admissible
                  <-> (0 <= channel < 40)
                      ∧ spec_score (np_zeros 18 22 40) 5 5 channel <= 0)
    ∧ StronglySorted Z.lt admissible.
Proof.
  apply (scan_carriers_correct (np_zeros 18 22 40) 18 22 5 5 0).
  - apply np_zeros_shape.
  - unfold scannable, in_range. lia.
Defined.

(** ** Priority escalation *)

Section Escalation.
Context (g : grid) (N M C : nat) (Hshape : grid_shape g N M C).
Context (HC : (40 <= C)%nat).
Context (c_i c_j : Z) (Hscan : scannable N M c_i c_j).

Lemma spec_admissible_118 (threshold : Z) :
  118 <= threshold -> spec_admissible g c_i c_j threshold ≠ [].
Proof.
  intros Ht E.
  assert (0 ∈ spec_admissible g c_i c_j threshold) as Hin.
  { apply elem_of_spec_admissible.
    pose proof (spec_score_bounds g c_i c_j 0). lia. }
  rewrite E in Hin. by apply elem_of_nil in Hin.
Qed.

Lemma escalate_found (fuel : nat) (good imperfect : list Z) (priority : Z) :
  good ≠ [] ->
  escalate fuel c_i c_j g good imperfect priority = Returned (good, imperfect, priority).
Proof. intros Hg. destruct good; [done|]. by destruct fuel. Qed.

Lemma escalate_spec (fuel : nat) :
  ∀ (priority : Z) (imperfect : list Z),
    priority <= 118 ->
    (Z.to_nat (119 - priority) <= fuel)%nat ->
    ∃ T, priority <= T <= 118
         ∧ spec_admissible g c_i c_j T ≠ []
         ∧ (∀ t, priority <= t < T -> spec_admissible g c_i c_j t = [])
         ∧ escalate fuel c_i c_j g [] imperfect priority
           = Returned (spec_admissible g c_i c_j T, padded_scores g c_i c_j C, T + 1).
Proof.
  induction fuel as [|fuel IH]; intros priority imperfect Hp Hfuel; [lia|].
  cbn [escalate].
  rewrite (scan_carriers_spec g N M C Hshape HC c_i c_j Hscan priority).
  rewrite bind_Returned. cbv beta iota. fold (padded_scores g c_i c_j C).
  destruct (decide (spec_admissible g c_i c_j priority = [])) as [E|E].
  - assert (priority < 118) as Hlt.
    { destruct (decide (priority = 118)) as [->|]; [|lia].
      by apply spec_admissible_118 in E. }
    rewrite E.
    destruct (IH (priority + 1) (padded_scores g c_i c_j C))
      as (T & HT & Hne & Hmin & Hrun); [lia..|].
    exists T. split; [lia|]. split; [done|]. split; [|done].
    intros t Ht. destruct (decide (t = priority)) as [->|]; [done|].
    apply Hmin. lia.
  - exists priority. split; [lia|]. split; [done|]. split; [intros; lia|].
    by apply escalate_found.
Qed.

(** The scan followed by the loop, as [base_carrier_manager] runs them:
    [T] is the first threshold from the baseline up at which some channel
    is admissible. *)
Lemma scan_escalate_spec (fuel : nat) (priority : Z) :
  (Z.to_nat (119 - priority) <= fuel)%nat ->
  ∃ T, priority <= T <= Z.max priority 118
       ∧ spec_admissible g c_i c_j T ≠ []
       ∧ (∀ t, priority <= t < T -> spec_admissible g c_i c_j t = [])
       ∧ ('(good_channels, imperfect) ← scan_carriers c_i c_j g priority;
          escalate fuel c_i c_j g good_channels imperfect priority)
         = Returned (spec_admissible g c_i c_j T, padded_scores g c_i c_j C,
                     if decide (T = priority) then priority else T + 1).
Proof.
  intros Hfuel.
  rewrite (scan_carriers_spec g N M C Hshape HC c_i c_j Hscan priority).
  rewrite bind_Returned. cbv beta iota. fold (padded_scores g c_i c_j C).
  destruct (decide (spec_admissible g c_i c_j priority = [])) as [E|E].
  - assert (priority < 118) as Hlt.
    { destruct (decide (118 <= priority)) as [H|]; [|lia].
      by apply spec_admissible_118 in E. }
    rewrite E.
    destruct (escalate_spec fuel priority (padded_scores g c_i c_j C))
      as (T & HT & Hne & Hmin & Hrun); [lia..|].
    exists T. split; [lia|]. split; [done|]. split; [done|].
    rewrite Hrun. rewrite decide_False; [done|]. intros ->. done.
  - exists priority. split; [lia|]. split; [done|]. split; [intros; lia|].
    rewrite decide_True by done. by apply escalate_found.
Qed.
End Escalation.

(** ** Commit and allocation *)

Lemma getitem_head {A : Type} (x : A) (l : list A) : getitem (x :: l) 0 = Returned x.
Proof.
  apply getitem_in_range.
  - unfold in_range. simpl length. lia.
  - reflexivity.
Qed.

Lemma resolve_nonneg (len : nat) (k : Z) : 0 <= k -> resolve len k = Z.to_nat k.
Proof. intros Hk. unfold resolve. by rewrite decide_True. Qed.

Section Allocation.
Context (s : state) (N M C : nat).
Context (Hshape : grid_shape (channel_list s) N M C) (HC : (40 <= C)%nat).

Lemma assign_carrier_shaped (c_i c_j channel : Z) (ucode : string) (priority v : Z) :
  in_range N c_i -> in_range M c_j -> in_range C channel ->
  py_float ucode = Returned v ->
  assign_carrier s c_i c_j channel ucode priority
  = (Returned (),
     State (write_at (channel_list s) (resolve N c_i) (resolve M c_j)
              (resolve C channel) v)
       (<[carrier_code_of c_i c_j channel ucode := priority]> (allocated_carriers s))).
Proof.
  intros Hi Hj Hc Hv. unfold assign_carrier.
  rewrite Hv, (grid_set_shaped _ N M C Hshape) by done. done.
Qed.

Lemma allocate_carrier_spec (fuel : nat) (each_new_carrier : carrier_info) (v : Z) :
  let c_i := nc_i each_new_carrier in
  let c_j := nc_j each_new_carrier in
  let priority := nc_priority each_new_carrier in
  scannable N M c_i c_j ->
  py_float (nc_ucode each_new_carrier) = Returned v ->
  (Z.to_nat (119 - priority) <= fuel)%nat ->
  ∃ T channel rest,
    priority <= T <= Z.max priority 118
    ∧ spec_admissible (channel_list s) c_i c_j T = channel :: rest
    ∧ (∀ t, priority <= t < T -> spec_admissible (channel_list s) c_i c_j t = [])
    ∧ allocate_carrier fuel s each_new_carrier
      = (Returned
           (Processed each_new_carrier
              ((spec_score (channel_list s) c_i c_j <$> seqZ 0 40)
               ++ replicate (C - 40) 0)
              (channel :: rest)
              (if decide (T = priority) then priority else T + 1)),
         State (write_at (channel_list s) (resolve N c_i) (resolve M c_j)
                  (Z.to_nat channel) v)
           (<[carrier_code_of c_i c_j channel (nc_ucode each_new_carrier) := priority]>
              (allocated_carriers s))).
Proof.
  intros c_i c_j priority Hscan Hv Hfuel.
  destruct (scan_escalate_spec _ N M C Hshape HC c_i c_j Hscan fuel priority Hfuel)
    as (T & HT & Hne & Hmin & Hrun).
  destruct (spec_admissible (channel_list s) c_i c_j T) as [|channel rest] eqn:E;
    [done|].
  exists T, channel, rest. split; [done|]. split; [done|]. split; [done|].
  destruct (spec_admissible_head _ _ _ _ _ _ E) as (Hch & _ & _).
  destruct (scannable_centre _ _ _ _ Hscan) as [Hi Hj].
  unfold allocate_carrier, process_new_carrier.
  fold c_i c_j priority. rewrite Hrun, getitem_head.
  rewrite (assign_carrier_shaped _ _ _ _ _ v) by (done || unfold in_range; lia).
  by rewrite (resolve_nonneg C channel) by lia.
Qed.
End Allocation.

(** *** The threshold as a float64 *)


Section EscalationF64.
Context (g : grid) (N M C : nat) (Hshape : grid_shape g N M C).
Context (HC : (40 <= C)%nat).
Context (c_i c_j : Z) (Hscan : scannable N M c_i c_j).


End EscalationF64.




(** The bound is reached: when every channel is taken at the beam and at its
    18 neighbours, a baseline of 0 is incremented 119 times. *)
Example escalation_bound_reached :
  ('(good, imp) ← scan_carriers 5 5 (replicate 18 (replicate 22 (replicate 40 1))) 0;
   escalate 119 5 5 (replicate 18 (replicate 22 (replicate 40 1))) good imp 0)
  = Returned (seqZ 0 40, replicate 40 118, 119).
Proof. vm_compute. reflexivity. Qed.

(** C4, as the code has it: a successful allocation takes the first element
    of the admissible list of the scan that succeeded, which is the lowest
    admissible channel, writes the value of the identity into that grid slot
    and inserts the carrier code into the dict, mapped to the priority the
    request came with. *)
Theorem commit_selection (s : state) (N M C : nat) (r : carrier_info) (v : Z)
    (fuel : nat) :
  grid_shape (channel_list s) N M C -> (40 <= C)%nat ->
  scannable N M (nc_i r) (nc_j r) ->
  py_float (nc_ucode r) = Returned v ->
  (Z.to_nat (119 - nc_priority r) <= fuel)%nat ->
  ∃ threshold channel rest scores final s',
    allocate_carrier fuel s r
    = (Returned (Processed r scores (channel :: rest) final), s')
    ∧ nc_priority r <= threshold
    ∧ scan_carriers (nc_i r) (nc_j r) (channel_list s) threshold
      = Returned (channel :: rest, scores)
    ∧ Forall (Z.lt channel) rest
    ∧ grid_set (channel_list s) (nc_i r) (nc_j r) channel (Returned v)
      = Returned (channel_list s')
    ∧ allocated_carriers s'
      = <[carrier_code_of (nc_i r) (nc_j r) channel (nc_ucode r) := nc_priority r]>
          (allocated_carriers s).
Proof.
  intros Hshape HC Hscan Hv Hfuel.
  destruct (allocate_carrier_spec s N M C Hshape HC fuel r v Hscan Hv Hfuel)
    as (T & channel & rest & HT & E & _ & Hrun).
  destruct (spec_admissible_head _ _ _ _ _ _ E) as (Hch & _ & _).
  destruct (scannable_centre _ _ _ _ Hscan) as [Hi Hj].
  eexists T, channel, rest, _, _, _. split; [exact Hrun|].
  split; [lia|]. split; [|split; [|split]].
  - rewrite (scan_carriers_spec _ N M C Hshape HC _ _ Hscan). by rewrite E.
  - pose proof (spec_admissible_sorted (channel_list s) (nc_i r) (nc_j r) T) as Hs.
    rewrite E in Hs. by apply StronglySorted_cons in Hs as [? _].
  - simpl. rewrite (grid_set_shaped _ N M C Hshape) by (done || unfold in_range; lia).
    by rewrite (resolve_nonneg C channel) by lia.
  - reflexivity.
Qed.

Lemma commit_selection_witness :
  ∃ threshold channel rest scores final s',
    allocate_carrier 119 (State (np_zeros 18 22 40) ∅) (CarrierInfo 5 5 0 "1")
    = (Returned (Processed (CarrierInfo 5 5 0 "1") scores (channel :: rest) final), s')
    ∧ 0 <= threshold
    ∧ scan_carriers 5 5 (np_zeros 18 22 40) threshold = Returned (channel :: rest, scores)
    ∧ Forall (Z.lt channel) rest
    ∧ grid_set (np_zeros 18 22 40) 5 5 channel (Returned 1) = Returned (channel_list s')
    ∧ allocated_carriers s' = <[carrier_code_of 5 5 channel "1" := 0]> ∅.
Proof.
  apply (commit_selection (State (np_zeros 18 22 40) ∅) 18 22 40
           (CarrierInfo 5 5 0 "1") 1 119).
  - apply np_zeros_shape.
  - lia.
  - unfold scannable, in_range. simpl. lia.
  - reflexivity.
  - simpl. lia.
Defined.

(** C4 fails as stated.  Forty carriers fill beam (5,7), a neighbour of beam
    (5,5); a request at (5,5) with baseline 0 then finds nothing at
    threshold 0 and every channel at threshold 1.  The dict maps the new
    carrier to 0, the priority of the request, and the request records the
    final priority 2. *)
Lemma commit_priority_counterexample :
  ∃ s0 outs0 scores out s,
    base_carrier_manager 119 (carriers_at 5 7 40) 14 14 40 [] = Returned (s0, outs0)
    ∧ scan_carriers 5 5 (channel_list s0) 0 = Returned ([], scores)
    ∧ scan_carriers 5 5 (channel_list s0) 1 = Returned (seqZ 0 40, scores)
    ∧ allocate_carrier 119 s0 (CarrierInfo 5 5 0 "99") = (Returned out, s)
    ∧ good_channels out = seqZ 0 40
    ∧ final_priority out = 2
    ∧ allocated_carriers s !! "5:5:0:99" = Some 0.
Proof.
  assert (match base_carrier_manager 119 (carriers_at 5 7 40) 14 14 40 [] with
          | Returned (s0, _) =>
              Some (scan_carriers 5 5 (channel_list s0) 0,
                    scan_carriers 5 5 (channel_list s0) 1,
                    match allocate_carrier 119 s0 (CarrierInfo 5 5 0 "99") with
                    | (Returned out, s) =>
                        Some (good_channels out, final_priority out,
                              allocated_carriers s !! "5:5:0:99")
                    | _ => None
                    end)
          | _ => None
          end
          = Some (Returned ([], replicate 40 1), Returned (seqZ 0 40, replicate 40 1),
                  Some (seqZ 0 40, 2, Some 0))) as H
    by (vm_compute; reflexivity).
  destruct (base_carrier_manager 119 (carriers_at 5 7 40) 14 14 40 [])
    as [[s0 outs0]| |]; [|discriminate H..].
  destruct (allocate_carrier 119 s0 (CarrierInfo 5 5 0 "99")) as [[out| |] s]
    eqn:Hstep; [|discriminate H..].
  injection H as H0 H1 Hgood Hfinal Hreg.
  exists s0, outs0, (replicate 40 1), out, s. split_and!; done.
Qed.

(** C5, as the code has it: [assign_carrier] does not look at what the slot
    holds.  Whenever the beam and the channel are in the grid and the
    identity is numeric, it overwrites the slot with the new occupant and
    inserts the carrier code, whatever was there; and when it raises (an
    index out of the grid, an identity that is not numeric) it leaves grid
    and dict as they were. *)
Theorem assign_carrier_overwrites (s : state) (N M C : nat) (c_i c_j channel : Z)
    (ucode : string) (priority v : Z) :
  grid_shape (channel_list s) N M C ->
  in_range N c_i -> in_range M c_j -> in_range C channel ->
  py_float ucode = Returned v ->
  (∃ g, assign_carrier s c_i c_j channel ucode priority
        = (Returned (),
           State g (<[carrier_code_of c_i c_j channel ucode := priority]>
                      (allocated_carriers s)))
        ∧ grid_set (channel_list s) c_i c_j channel (Returned v) = Returned g
        ∧ grid_get g c_i c_j channel = Returned v)
  ∧ ∀ s0 i j ch u p e s', assign_carrier s0 i j ch u p = (Raised e, s') -> s' = s0.
Proof.
  intros Hshape Hi Hj Hc Hv. split.
  - eexists. split; [by apply (assign_carrier_shaped s N M C Hshape)|].
    split; [by apply grid_set_shaped|].
    rewrite (grid_get_shaped _ N M C) by (done || apply write_at_shape; done).
    rewrite (cell_at_write_at _ N M C Hshape) by (by apply resolve_lt).
    by rewrite decide_True.
  - intros s0 i j ch u p e s'. unfold assign_carrier.
    destruct (grid_set _ _ _ _ _); by intros [= <- <-] || by intros [= <-].
Qed.

Lemma assign_carrier_overwrites_witness :
  (∃ g, assign_carrier (State (np_zeros 18 22 40) ∅) 5 5 0 "1" 0
        = (Returned (), State g (<[carrier_code_of 5 5 0 "1" := 0]> ∅))
        ∧ grid_set (np_zeros 18 22 40) 5 5 0 (Returned 1) = Returned g
        ∧ grid_get g 5 5 0 = Returned 1)
  ∧ ∀ s0 i j ch u p e s', assign_carrier s0 i j ch u p = (Raised e, s') -> s' = s0.
Proof.
  apply (assign_carrier_overwrites (State (np_zeros 18 22 40) ∅) 18 22 40 5 5 0 "1" 0 1).
  - apply np_zeros_shape.
  - unfold in_range. lia.
  - unfold in_range. lia.
  - unfold in_range. lia.
  - reflexivity.
Defined.

(** C5 fails as stated: after carrier 1 has been allocated channel 0 of beam
    (5,5), committing carrier 2 to the same slot returns normally, overwrites
    the slot and leaves both carrier codes in the dict. *)
Lemma assign_carrier_no_check :
  ∃ s outs s',
    base_carrier_manager 119 [CarrierInfo 5 5 0 "1"] 14 14 40 [] = Returned (s, outs)
    ∧ grid_get (channel_list s) 5 5 0 = Returned 1
    ∧ assign_carrier s 5 5 0 "2" 0 = (Returned (), s')
    ∧ grid_get (channel_list s') 5 5 0 = Returned 2
    ∧ allocated_carriers s' !! "5:5:0:1" = Some 0
    ∧ allocated_carriers s' !! "5:5:0:2" = Some 0.
Proof.
  assert (match base_carrier_manager 119 [CarrierInfo 5 5 0 "1"] 14 14 40 [] with
          | Returned (s, _) =>
              Some (grid_get (channel_list s) 5 5 0,
                    match assign_carrier s 5 5 0 "2" 0 with
                    | (Returned _, s') =>
                        Some (grid_get (channel_list s') 5 5 0,
                              allocated_carriers s' !! "5:5:0:1",
                              allocated_carriers s' !! "5:5:0:2")
                    | _ => None
                    end)
          | _ => None
          end
          = Some (Returned 1, Some (Returned 2, Some 0, Some 0))) as H
    by (vm_compute; reflexivity).
  destruct (base_carrier_manager 119 [CarrierInfo 5 5 0 "1"] 14 14 40 [])
    as [[s outs]| |]; [|discriminate H..].
  destruct (assign_carrier s 5 5 0 "2" 0) as [[[]| |] s'] eqn:Hstep;
    [|discriminate H..].
  injection H as H0 H1 H2 H3.
  exists s, outs, s'. split_and!; done.
Qed.

(** ** Allocation of a list of requests *)






(** ** No two carriers in one slot *)

Lemma grid_get_in_range (g : grid) (N M C : nat) (i j channel w : Z) :
  grid_shape g N M C ->
  grid_get g i j channel = Returned w ->
  in_range N i ∧ in_range M j ∧ in_range C channel.
Proof.
  intros Hshape Hget.
  destruct (decide (in_range N i)) as [Hi|Hi];
    [|by rewrite (grid_get_row_out g N M C Hshape) in Hget].
  pose proof (shape_rows _ _ _ _ Hshape) as HN.
  destruct (lookup_lt_is_Some_2 g (resolve N i)) as [row Hrow];
    [rewrite HN; by apply resolve_lt|].
  pose proof (shape_cols _ _ _ _ Hshape _ _ Hrow) as HM.
  unfold grid_get in Hget.
  rewrite (getitem_in_range g i row) in Hget by (rewrite ?HN; done).
  rewrite bind_Returned in Hget.
  destruct (decide (in_range M j)) as [Hj|Hj].
  - destruct (lookup_lt_is_Some_2 row (resolve M j)) as [col Hcol];
      [rewrite HM; by apply resolve_lt|].
    pose proof (shape_chans _ _ _ _ Hshape _ _ _ _ Hrow Hcol) as HC.
    rewrite (getitem_in_range row j col) in Hget by (rewrite ?HM; done).
    rewrite bind_Returned in Hget.
    destruct (decide (in_range C channel)) as [Hc|Hc]; [done|].
    unfold getitem in Hget. rewrite HC, py_index_out_of_range in Hget by done.
    done.
  - unfold getitem in Hget. rewrite HM, py_index_out_of_range in Hget by done.
    done.
Qed.

Lemma occupied_cell (g : grid) (N M C : nat) (i j channel : Z) :
  grid_shape g N M C ->
  occupied g i j channel
  <-> in_range N i ∧ in_range M j ∧ in_range C channel
      ∧ cell_at g (resolve N i) (resolve M j) (resolve C channel) ≠ 0.
Proof.
  intros Hshape. unfold occupied. split.
  - destruct (grid_get g i j channel) as [w| |] eqn:Hget; [|done..].
    intros Hw.
    destruct (grid_get_in_range g N M C i j channel w Hshape Hget) as (Hi & Hj & Hc).
    rewrite (grid_get_shaped g N M C Hshape) in Hget by done.
    injection Hget as <-. done.
  - intros (Hi & Hj & Hc & Hw).
    by rewrite (grid_get_shaped g N M C Hshape) by done.
Qed.

Lemma spec_score_free (g : grid) (c_i c_j channel : Z) :
  spec_score g c_i c_j channel < 100 -> ¬ occupied g c_i c_j channel.
Proof. unfold spec_score. intros Hs Hocc. rewrite decide_True in Hs by done. lia. Qed.

Lemma allocate_carrier_invariant (s : state) (N M C fuel : nat) (r : carrier_info)
    (out : processed_carrier) (s' : state) :
  (40 <= C)%nat ->
  grid_shape (channel_list s) N M C ->
  registry_consistent s -> no_collision s ->
  request_fits N M fuel r ->
  allocate_carrier fuel s r = (Returned out, s') ->
  final_priority out < 100 ->
  grid_shape (channel_list s') N M C ∧ registry_consistent s' ∧ no_collision s'.
Proof.
  intros HC Hshape Hcons Hnc (Hscan & (v & Hv & Hv0) & Hfuel) Hrun Hfinal.
  destruct (allocate_carrier_spec s N M C Hshape HC fuel r v Hscan Hv Hfuel)
    as (T & channel & rest & HT & E & _ & Hrun').
  rewrite Hrun' in Hrun. injection Hrun as <- <-. cbn [final_priority] in Hfinal.
  destruct (spec_admissible_head _ _ _ _ _ _ E) as (Hch & Hscore & _).
  destruct (scannable_centre _ _ _ _ Hscan) as [Hi Hj].
  assert (T < 100) as HT100 by (case_decide; lia).
  clear Hrun' Hfinal.
  assert (¬ occupied (channel_list s) (nc_i r) (nc_j r) channel) as Hfree
    by (apply spec_score_free; lia).
  assert (in_range C channel) as Hc by (unfold in_range; lia).
  set (g' := write_at _ _ _ _ _).
  assert (grid_shape g' N M C) as Hshape' by (by apply write_at_shape).
  assert (∀ i j c, occupied (channel_list s) i j c -> occupied g' i j c) as Hkeep.
  { intros i j c (Hi' & Hj' & Hc' & Hw)%(occupied_cell _ N M C); [|done].
    apply (occupied_cell _ N M C); [done|]. split_and!; [done..|].
    unfold g'. rewrite (cell_at_write_at _ N M C Hshape) by (first [by apply resolve_lt | lia]).
    by case_decide. }
  assert (occupied g' (nc_i r) (nc_j r) channel) as Hnew.
  { apply (occupied_cell _ N M C); [done|]. split_and!; [done..|].
    unfold g'. rewrite (cell_at_write_at _ N M C Hshape) by (first [by apply resolve_lt | lia]).
    rewrite (resolve_nonneg C channel) by lia. by rewrite decide_True. }
  split; [done|]. split.
  - intros i j c u. cbn [allocated_carriers channel_list].
    intros [Heq|[_ Hold]]%lookup_insert_is_Some.
    + apply carrier_code_of_inj in Heq as (<- & <- & <- & <-). done.
    + apply Hkeep. by eapply Hcons.
  - intros i j c u u'. cbn [allocated_carriers].
    intros [Heq|[_ Hold]]%lookup_insert_is_Some
           [Heq'|[_ Hold']]%lookup_insert_is_Some.
    + apply carrier_code_of_inj in Heq as (_ & _ & _ & <-).
      by apply carrier_code_of_inj in Heq' as (_ & _ & _ & <-).
    + apply carrier_code_of_inj in Heq as (<- & <- & <- & <-).
      destruct Hfree. by eapply Hcons.
    + apply carrier_code_of_inj in Heq' as (<- & <- & <- & <-).
      destruct Hfree. by eapply Hcons.
    + by eapply Hnc.
Qed.

Lemma allocate_carriers_invariant (N M C fuel : nat) (new_carrier_list : list carrier_info) :
  (40 <= C)%nat ->
  ∀ s outs s',
    grid_shape (channel_list s) N M C ->
    registry_consistent s -> no_collision s ->
    Forall (request_fits N M fuel) new_carrier_list ->
    allocate_carriers fuel s new_carrier_list = (Returned outs, s') ->
    Forall (fun out => final_priority out < 100) outs ->
    registry_consistent s' ∧ no_collision s'.
Proof.
  intros HC. induction new_carrier_list as [|r rest IH];
    intros s outs s' Hshape Hcons Hnc Hfit Hrun Hfinal.
  - injection Hrun as <- <-. done.
  - apply Forall_cons in Hfit as [Hr Hrest].
    cbn [allocate_carriers] in Hrun.
    destruct (allocate_carrier fuel s r) as [[out| |] s1] eqn:Hstep; [|done..].
    destruct (allocate_carriers fuel s1 rest) as [[outs1| |] s2] eqn:Hsteps; [|done..].
    injection Hrun as <- <-.
    apply Forall_cons in Hfinal as [Hout Houts].
    destruct (allocate_carrier_invariant s N M C fuel r out s1) as (H1 & H2 & H3);
      [done..|].
    by eapply IH.
Qed.

(** C1, as the code has it: the loop of [base_carrier_manager], started in a
    state where every carrier code names an occupied slot and no two codes
    share beam and channel (the empty state is one), leaves no two carrier
    codes on one (beam, channel), provided every request has a numeric
    identity other than zero and ends with a final priority below 100, that
    is, was not escalated into the scores of channels already taken at the
    beam itself. *)
Theorem no_collision_preserved (N M C fuel : nat)
    (new_carrier_list : list carrier_info)
    (s : state) (outs : list processed_carrier) (s' : state) :
  grid_shape (channel_list s) N M C -> (40 <= C)%nat ->
  registry_consistent s -> no_collision s ->
  Forall (request_fits N M fuel) new_carrier_list ->
  allocate_carriers fuel s new_carrier_list = (Returned outs, s') ->
  Forall (fun out => final_priority out < 100) outs ->
  no_collision s'.
Proof.
  intros Hshape HC Hcons Hnc Hfit Hrun Hfinal.
  by destruct (allocate_carriers_invariant N M C fuel new_carrier_list HC
                 s outs s' Hshape Hcons Hnc Hfit Hrun Hfinal).
Qed.

Lemma no_collision_preserved_witness :
  no_collision
    (allocate_carriers 119 (State (np_zeros 18 22 40) ∅)
       [CarrierInfo 5 5 0 "1"; CarrierInfo 5 5 0 "2"]).2.
Proof.
  assert (match allocate_carriers 119 (State (np_zeros 18 22 40) ∅)
                  [CarrierInfo 5 5 0 "1"; CarrierInfo 5 5 0 "2"] with
          | (Returned outs, _) => Some (final_priority <$> outs)
          | _ => None
          end = Some [0; 0]) as H
    by (vm_compute; reflexivity).
  destruct (allocate_carriers 119 (State (np_zeros 18 22 40) ∅)
              [CarrierInfo 5 5 0 "1"; CarrierInfo 5 5 0 "2"])
    as [[outs| |] s'] eqn:Hrun; [|discriminate H..].
  injection H as H.
  apply (no_collision_preserved 18 22 40 119
           [CarrierInfo 5 5 0 "1"; CarrierInfo 5 5 0 "2"]
           (State (np_zeros 18 22 40) ∅) outs s').
  - apply np_zeros_shape.
  - lia.
  - intros i j channel u [x Hx]. simpl in Hx. by rewrite lookup_empty in Hx.
  - intros i j channel u u' [x Hx]. simpl in Hx. by rewrite lookup_empty in Hx.
  - repeat constructor; unfold scannable, in_range; simpl; try lia;
      eexists; (split; [reflexivity|lia]).
  - exact Hrun.
  - destruct outs as [|a [|b [|c l]]]; try discriminate H.
    injection H as Ha Hb. repeat constructor; lia.
Defined.

(** C1 fails as stated: 41 requests for beam (5,5), all successful.  The
    first 40 take channels 0 to 39; the 41st finds every channel at score
    100, is escalated until the threshold reaches 100 and is given channel
    0, which carrier 1 holds. *)
Lemma collision_counterexample :
  ∃ s outs,
    base_carrier_manager 119 (carriers_at 5 5 41) 14 14 40 [] = Returned (s, outs)
    ∧ length outs = 41%nat
    ∧ is_Some (allocated_carriers s !! carrier_code_of 5 5 0 "1")
    ∧ is_Some (allocated_carriers s !! carrier_code_of 5 5 0 "41")
    ∧ ¬ no_collision s.
Proof.
  assert (match base_carrier_manager 119 (carriers_at 5 5 41) 14 14 40 [] with
          | Returned (s, outs) =>
              Some (length outs,
                    allocated_carriers s !! carrier_code_of 5 5 0 "1",
                    allocated_carriers s !! carrier_code_of 5 5 0 "41")
          | _ => None
          end = Some (41%nat, Some 0, Some 0)) as H
    by (vm_compute; reflexivity).
  destruct (base_carrier_manager 119 (carriers_at 5 5 41) 14 14 40 [])
    as [[s outs]| |]; [|discriminate H..].
  injection H as Hlen H1 H41.
  exists s, outs. split; [done|]. split; [done|].
  split; [rewrite H1; eauto|]. split; [rewrite H41; eauto|].
  intros Hnc. specialize (Hnc 5 5 0 "1" "41"). rewrite H1, H41 in Hnc.
  specialize (Hnc ltac:(eauto) ltac:(eauto)). discriminate Hnc.
Qed.

(** ** Deallocation *)


Lemma deallocate_present (s : state) (N M C : nat) (i j channel : Z) (u : string)
    (priority : Z) :
  grid_shape (channel_list s) N M C ->
  no_colon u -> in_range N i -> in_range M j -> in_range C channel ->
  allocated_carriers s !! carrier_code_of i j channel u = Some priority ->
  deallocate_carrier (carrier_code_of i j channel u) s
  = (Returned (),
     State (write_at (channel_list s) (resolve N i) (resolve M j) (resolve C channel) 0)
       (delete (carrier_code_of i j channel u) (allocated_carriers s))).
Proof.
  intros Hshape Hu Hi Hj Hc Hin.
  unfold deallocate_carrier, deallocate_try.
  rewrite re_split_carrier_code by done. rewrite Hin.
  rewrite (py_int_pretty i), bind_Returned.
  destruct (shaped_lookup _ N M C Hshape (resolve N i) (resolve M j) (resolve C channel))
    as (row & col & Hrow & Hcol & Hlr & Hlc & _); [by apply resolve_lt..|].
  rewrite (getitem_in_range _ i row)
    by (rewrite ?(shape_rows _ _ _ _ Hshape); done).
  rewrite bind_Returned, (py_int_pretty j), bind_Returned.
  rewrite (getitem_in_range row j col) by (rewrite ?Hlr; done).
  rewrite bind_Returned, (py_int_pretty channel), bind_Returned.
  by rewrite (grid_set_shaped _ N M C Hshape) by done.
Qed.



(** ** Conversion to and from raw records *)

Lemma raw_of_code_carrier_code (m : gmap string Z) (i j channel : Z) (u : string)
    (priority : Z) :
  no_colon u -> m !! carrier_code_of i j channel u = Some priority ->
  raw_of_code m (carrier_code_of i j channel u)
  = Returned (RawCarrier i j channel u priority).
Proof.
  intros Hu Hin. unfold raw_of_code.
  rewrite re_split_carrier_code by done. rewrite Hin.
  by rewrite (py_int_pretty i), bind_Returned, (py_int_pretty j), bind_Returned,
    (py_int_pretty channel), bind_Returned.
Qed.

Lemma convert_to_raw_loadable (s : state) (N M C : nat) (keys : list string) :
  registry_loadable s N M C ->
  (∀ k, k ∈ keys -> is_Some (allocated_carriers s !! k)) ->
  ∀ acc, ∃ raws,
    for_each (fun raw_carriers carrier_code =>
                c ← raw_of_code (allocated_carriers s) carrier_code;
                Returned (raw_carriers ++ [c])) acc keys
    = Returned (acc ++ raws)
    ∧ code_of_raw <$> raws = keys
    ∧ Forall (raw_loadable N M C) raws
    ∧ Forall (fun c => allocated_carriers s !! code_of_raw c = Some (raw_priority c)) raws.
Proof.
  intros Hload. induction keys as [|k keys IH]; intros Hkeys acc.
  - exists []. rewrite app_nil_r. by repeat split.
  - destruct (Hkeys k ltac:(left)) as [p Hp].
    destruct (Hload k ltac:(eauto)) as (i & j & c & u & v & -> & Hv & Hi & Hj & Hc).
    assert (no_colon u) as Hu by (by eapply py_int_no_colon).
    destruct (IH ltac:(intros k' Hk'; apply Hkeys; by right)
                (acc ++ [RawCarrier i j c u p]))
      as (raws & Hrun & Hcodes & Hl & Hp').
    exists (RawCarrier i j c u p :: raws).
    cbn [for_each]. rewrite (raw_of_code_carrier_code _ _ _ _ _ p) by done.
    rewrite !bind_Returned, Hrun, <- app_assoc.
    split; [done|]. split; [by rewrite fmap_cons, Hcodes|].
    split; constructor; try done.
    split; [by exists v|done].
Qed.

Lemma load_raw_loadable (N M C : nat) (s0 : state) (c : raw_carrier) (v : Z) :
  grid_shape (channel_list s0) N M C ->
  py_float (raw_ucode c) = Returned v ->
  in_range N (raw_i c) -> in_range M (raw_j c) -> in_range C (raw_channel c) ->
  load_raw s0 c
  = Returned (State (write_at (channel_list s0) (resolve N (raw_i c))
                       (resolve M (raw_j c)) (resolve C (raw_channel c)) v)
                (<[code_of_raw c := raw_priority c]> (allocated_carriers s0))).
Proof.
  intros Hshape Hv Hi Hj Hc. unfold load_raw.
  by rewrite Hv, (grid_set_shaped _ N M C Hshape) by done.
Qed.

Lemma convert_from_raw_loadable (N M C : nat) (raws : list raw_carrier) :
  Forall (raw_loadable N M C) raws ->
  ∀ s0, grid_shape (channel_list s0) N M C ->
        ∃ s', for_each load_raw s0 raws = Returned s'
              ∧ grid_shape (channel_list s') N M C
              ∧ allocated_carriers s'
                = foldl (fun m c => <[code_of_raw c := raw_priority c]> m)
                    (allocated_carriers s0) raws.
Proof.
  induction 1 as [|c raws ([v Hv] & Hi & Hj & Hc) _ IH]; intros s0 Hshape.
  - by exists s0.
  - cbn [for_each]. rewrite (load_raw_loadable N M C s0 c v) by done.
    rewrite bind_Returned.
    destruct (IH (State (write_at (channel_list s0) (resolve N (raw_i c))
                           (resolve M (raw_j c)) (resolve C (raw_channel c)) v)
                    (<[code_of_raw c := raw_priority c]> (allocated_carriers s0))))
      as (s' & Hrun & Hshape' & Hreg); [by apply write_at_shape|].
    exists s'. by rewrite Hrun.
Qed.

Lemma foldl_insert_sub (reg : gmap string Z) (raws : list raw_carrier) :
  Forall (fun c => reg !! code_of_raw c = Some (raw_priority c)) raws ->
  ∀ m, m ⊆ reg ->
       foldl (fun m c => <[code_of_raw c := raw_priority c]> m) m raws ⊆ reg.
Proof.
  induction 1 as [|c raws Hc _ IH]; intros m Hm; [done|].
  cbn [foldl]. apply IH. by apply insert_subseteq_l.
Qed.

Lemma foldl_insert_is_Some (raws : list raw_carrier) :
  ∀ (m : gmap string Z) k,
    k ∈ (code_of_raw <$> raws) ∨ is_Some (m !! k) ->
    is_Some (foldl (fun m c => <[code_of_raw c := raw_priority c]> m) m raws !! k).
Proof.
  induction raws as [|c raws IH]; intros m k H.
  - destruct H as [H|H]; [by apply elem_of_nil in H|done].
  - cbn [foldl]. apply IH. rewrite lookup_insert_is_Some.
    rewrite fmap_cons, elem_of_cons in H.
    destruct (decide (code_of_raw c = k)) as [|Hne]; [right; by left|].
    destruct H as [[H|H]|H]; [congruence|by left|right; right; by split].
Qed.



(** ** The two-carrier scenario *)

(** C7, as the code has it: from the empty 14 x 14 x 40 state, carrier '1'
    at beam (5,5) with baseline 0 is given channel 0 and every score is 0;
    carrier '2' at the same beam with baseline 0 then finds score 100 on
    channel 0 and 0 on the others, is not escalated (its final priority is
    0) and is given channel 1. *)
Theorem scenario_A_then_B :
  ∃ s outA outB,
    base_carrier_manager 119 [CarrierInfo 5 5 0 "1"; CarrierInfo 5 5 0 "2"] 14 14 40 []
    = Returned (s, [outA; outB])
    ∧ good_channels outA = seqZ 0 40
    ∧ imperfect_channels outA = replicate 40 0
    ∧ final_priority outA = 0
    ∧ imperfect_channels outB = 100 :: replicate 39 0
    ∧ good_channels outB = seqZ 1 39
    ∧ final_priority outB = 0
    ∧ allocated_carriers s !! "5:5:0:1" = Some 0
    ∧ allocated_carriers s !! "5:5:1:2" = Some 0
    ∧ grid_get (channel_list s) 5 5 0 = Returned 1
    ∧ grid_get (channel_list s) 5 5 1 = Returned 2.
Proof.
  assert (match base_carrier_manager 119
                  [CarrierInfo 5 5 0 "1"; CarrierInfo 5 5 0 "2"] 14 14 40 [] with
          | Returned (s, outs) =>
              Some (outs, allocated_carriers s !! "5:5:0:1",
                    allocated_carriers s !! "5:5:1:2",
                    grid_get (channel_list s) 5 5 0, grid_get (channel_list s) 5 5 1)
          | _ => None
          end
          = Some ([Processed (CarrierInfo 5 5 0 "1") (replicate 40 0) (seqZ 0 40) 0;
                   Processed (CarrierInfo 5 5 0 "2") (100 :: replicate 39 0)
                     (seqZ 1 39) 0],
                  Some 0, Some 0, Returned 1, Returned 2)) as H
    by (vm_compute; reflexivity).
  destruct (base_carrier_manager 119
              [CarrierInfo 5 5 0 "1"; CarrierInfo 5 5 0 "2"] 14 14 40 [])
    as [[s outs]| |]; [|discriminate H..].
  injection H as -> H1 H2 H3 H4.
  eexists s, _, _. split; [reflexivity|].
  cbn [good_channels imperfect_channels final_priority]. by repeat split.
Qed.

(** C7 fails as stated, twice.  The identity 'u1' is not a number: numpy
    cannot store it in the float64 grid and the first commit raises
    ValueError.  And with identities the grid can hold, the second request
    is not escalated: channels 1 to 39 score 0, so the scan at threshold 0
    already finds them and the final priority is 0, not 1. *)
Lemma scenario_A_then_B_counterexample :
  base_carrier_manager 119 [CarrierInfo 5 5 0 "u1"; CarrierInfo 5 5 0 "u2"] 14 14 40 []
  = Raised ValueError
  ∧ ∃ s outA outB,
      base_carrier_manager 119 [CarrierInfo 5 5 0 "1"; CarrierInfo 5 5 0 "2"] 14 14 40 []
      = Returned (s, [outA; outB])
      ∧ final_priority outB = 0
      ∧ final_priority outB ≠ 1.
Proof.
  split; [vm_compute; reflexivity|].
  assert (match base_carrier_manager 119
                  [CarrierInfo 5 5 0 "1"; CarrierInfo 5 5 0 "2"] 14 14 40 [] with
          | Returned (_, outs) => Some (final_priority <$> outs)
          | _ => None
          end = Some [0; 0]) as H
    by (vm_compute; reflexivity).
  destruct (base_carrier_manager 119
              [CarrierInfo 5 5 0 "1"; CarrierInfo 5 5 0 "2"] 14 14 40 [])
    as [[s outs]| |]; [|discriminate H..].
  destruct outs as [|outA [|outB [|c l]]]; try discriminate H.
  injection H as HA HB. exists s, outA, outB. rewrite HB. by split_and!.
Qed.

(** * Further properties of the program *)

(** ** When the scan returns *)

Lemma bind_Returned_inv {A B : Type} (m : outcome A) (f : A -> outcome B) (b : B) :
  (m ≫= f) = Returned b -> ∃ a, m = Returned a ∧ f a = Returned b.
Proof. destruct m as [a| |]; [|done..]. intros H. by exists a. Qed.

Lemma index_only_bind {A B : Type} (m : outcome A) (f : A -> outcome B) :
  index_only m -> (∀ a, index_only (f a)) -> index_only (m ≫= f).
Proof. destruct m as [a| |]; simpl; [auto|done..]. Qed.

Lemma index_only_not_Returned {A : Type} (r : outcome A) :
  index_only r -> (∀ a, r ≠ Returned a) -> r = Raised IndexError.
Proof.
  destruct r as [a|e|]; simpl.
  - intros _ H. by destruct (H a).
  - by intros ->.
  - done.
Qed.

Lemma index_only_py_index (len : nat) (k : Z) : index_only (py_index len k).
Proof. unfold py_index. by repeat case_decide. Qed.

Lemma index_only_getitem {A : Type} (l : list A) (k : Z) : index_only (getitem l k).
Proof.
  unfold getitem. apply index_only_bind; [apply index_only_py_index|].
  intros n. by destruct (l !! n).
Qed.

Lemma index_only_setitem {A : Type} (l : list A) (k : Z) (x : A) :
  index_only (setitem l k x).
Proof.
  unfold setitem. apply index_only_bind; [apply index_only_py_index|done].
Qed.

Lemma index_only_grid_get (g : grid) (i j channel : Z) :
  index_only (grid_get g i j channel).
Proof.
  unfold grid_get. apply index_only_bind; [apply index_only_getitem|]. intros row.
  apply index_only_bind; [apply index_only_getitem|]. intros col.
  apply index_only_getitem.
Qed.

Lemma index_only_for_each {A B : Type} (body : A -> B -> outcome A) (l : list B) :
  (∀ acc x, index_only (body acc x)) -> ∀ acc, index_only (for_each body acc l).
Proof.
  intros Hbody. induction l as [|x l IH]; intros acc; [done|].
  cbn [for_each]. by apply index_only_bind.
Qed.

Lemma index_only_scan_neighbour (g : grid) (channel : Z) (imp : list Z) (c : Z * Z) :
  index_only (scan_neighbour g channel imp c).
Proof.
  destruct c as [i j]. unfold scan_neighbour.
  apply index_only_bind; [apply index_only_grid_get|]. intros v.
  case_decide; [|done].
  apply index_only_bind; [apply index_only_getitem|]. intros x.
  apply index_only_setitem.
Qed.

Lemma index_only_scan_channel (c_i c_j : Z) (g : grid) (p : Z) (coords : list (Z * Z))
    (acc : list Z * list Z) (channel : Z) :
  index_only (scan_channel c_i c_j g p coords acc channel).
Proof.
  destruct acc as [good imp]. unfold scan_channel.
  apply index_only_bind; [apply index_only_grid_get|]. intros v.
  apply index_only_bind; [case_decide; [apply index_only_setitem|done]|]. intros imp1.
  apply index_only_bind;
    [apply index_only_for_each; intros; apply index_only_scan_neighbour|].
  intros imp2.
  apply index_only_bind; [apply index_only_getitem|]. intros x.
  by case_decide.
Qed.

Lemma index_only_scan_carriers (c_i c_j : Z) (g : grid) (p : Z) :
  index_only (scan_carriers c_i c_j g p).
Proof.
  unfold scan_carriers.
  apply index_only_bind; [apply index_only_getitem|]. intros row0.
  apply index_only_bind; [apply index_only_getitem|]. intros col0.
  apply index_only_for_each. intros. apply index_only_scan_channel.
Qed.

Lemma for_each_Returned_elem {A B : Type} (body : A -> B -> outcome A) (l : list B) :
  ∀ acc r x,
    for_each body acc l = Returned r -> x ∈ l ->
    ∃ acc0 acc1, body acc0 x = Returned acc1.
Proof.
  induction l as [|y l IH]; intros acc r x Hrun Hx.
  - by apply elem_of_nil in Hx.
  - cbn [for_each] in Hrun. apply bind_Returned_inv in Hrun as (acc' & Hy & Hrest).
    apply elem_of_cons in Hx as [->|Hx]; [by exists acc, acc'|].
    by eapply IH.
Qed.

Lemma scan_channel_Returned_reads (c_i c_j : Z) (g : grid) (p : Z)
    (acc acc' : list Z * list Z) (channel : Z) :
  scan_channel c_i c_j g p (create_neighbour_coords c_i c_j) acc channel = Returned acc' ->
  (∃ v, grid_get g c_i c_j channel = Returned v)
  ∧ ∀ i j, (i, j) ∈ create_neighbour_coords c_i c_j ->
           ∃ v, grid_get g i j channel = Returned v.
Proof.
  destruct acc as [good imp]. unfold scan_channel. intros H.
  apply bind_Returned_inv in H as (v & Hv & H).
  apply bind_Returned_inv in H as (imp1 & _ & H).
  apply bind_Returned_inv in H as (imp2 & Hnb & _).
  split; [by exists v|]. intros i j Hin.
  destruct (for_each_Returned_elem _ _ _ _ _ Hnb Hin) as (a0 & a1 & Hstep).
  unfold scan_neighbour in Hstep.
  apply bind_Returned_inv in Hstep as (w & Hw & _). by exists w.
Qed.

Lemma scan_carriers_Returned_inv (g : grid) (N M C : nat) (c_i c_j p : Z)
    (r : list Z * list Z) :
  grid_shape g N M C ->
  scan_carriers c_i c_j g p = Returned r ->
  scannable N M c_i c_j ∧ (40 <= C)%nat.
Proof.
  intros Hshape Hrun. unfold scan_carriers in Hrun.
  apply bind_Returned_inv in Hrun as (row0 & _ & Hrun).
  apply bind_Returned_inv in Hrun as (col0 & _ & Hrun).
  assert (∀ channel, channel ∈ possible_channels ->
            (∃ v, grid_get g c_i c_j channel = Returned v)
            ∧ ∀ i j, (i, j) ∈ create_neighbour_coords c_i c_j ->
                     ∃ v, grid_get g i j channel = Returned v) as Hreads.
  { intros channel Hin.
    destruct (for_each_Returned_elem _ _ _ _ _ Hrun Hin) as (a0 & a1 & Hstep).
    by eapply scan_channel_Returned_reads. }
  assert (39 ∈ possible_channels) as H39 by (apply elem_of_seqZ; lia).
  destruct (Hreads 39 H39) as [[v Hv] Hnb].
  destruct (grid_get_in_range g N M C _ _ _ _ Hshape Hv) as (_ & _ & Hc).
  split; [|unfold in_range in Hc; lia].
  assert (∀ i j, (i, j) ∈ create_neighbour_coords c_i c_j ->
                 in_range N i ∧ in_range M j) as Hin.
  { intros i j Hij. destruct (Hnb i j Hij) as [w Hw].
    destruct (grid_get_in_range g N M C _ _ _ _ Hshape Hw) as (? & ? & _). done. }
  rewrite create_neighbour_coords_eq in Hin.
  pose proof (Hin (c_i - 2) (c_j - 1) ltac:(repeat first [by left | right])) as [H1 _].
  pose proof (Hin (c_i + 2) (c_j - 1) ltac:(repeat first [by left | right])) as [H2 _].
  pose proof (Hin c_i (c_j - 4) ltac:(repeat first [by left | right])) as [_ H3].
  pose proof (Hin c_i (c_j + 4) ltac:(repeat first [by left | right])) as [_ H4].
  done.
Qed.

(** X1: on a rectangular grid, [scan_carriers] returns exactly when the
    beam and its 18 neighbours are rows and columns of the grid and the grid
    has at least the 40 channels the scan walks; in every other case it
    raises IndexError. *)
Theorem scan_carriers_returns_iff (g : grid) (N M C : nat) (c_i c_j p : Z) :
  grid_shape g N M C ->
  ((∃ r, scan_carriers c_i c_j g p = Returned r)
   <-> scannable N M c_i c_j ∧ (40 <= C)%nat)
  ∧ (¬ (scannable N M c_i c_j ∧ (40 <= C)%nat) ->
     scan_carriers c_i c_j g p = Raised IndexError).
Proof.
  intros Hshape.
  assert ((∃ r, scan_carriers c_i c_j g p = Returned r)
          <-> scannable N M c_i c_j ∧ (40 <= C)%nat) as Hiff.
  { split.
    - intros [r Hr]. by eapply scan_carriers_Returned_inv.
    - intros [Hscan HC]. eexists.
      apply (scan_carriers_spec g N M C Hshape HC c_i c_j Hscan). }
  split; [exact Hiff|].
  intros Hnot. apply index_only_not_Returned; [apply index_only_scan_carriers|].
  intros r Hr. apply Hnot, Hiff. by exists r.
Qed.

Lemma scan_carriers_returns_iff_witness :
  ((∃ r, scan_carriers 17 5 (np_zeros 18 22 40) 0 = Returned r)
   <-> scannable 18 22 17 5 ∧ (40 <= 40)%nat)
  ∧ (¬ (scannable 18 22 17 5 ∧ (40 <= 40)%nat) ->
     scan_carriers 17 5 (np_zeros 18 22 40) 0 = Raised IndexError).
Proof. apply (scan_carriers_returns_iff (np_zeros 18 22 40) 18 22 40 17 5 0), np_zeros_shape. Defined.

(** X2: the scores [scan_carriers] returns do not depend on the priority,
    and raising the priority only adds channels to the admissible list. *)
Theorem scan_carriers_monotone (g : grid) (N M C : nat) (c_i c_j p p' : Z)
    (good scores : list Z) :
  grid_shape g N M C -> p <= p' ->
  scan_carriers c_i c_j g p = Returned (good, scores) ->
  ∃ good', scan_carriers c_i c_j g p' = Returned (good', scores)
           ∧ ∀ channel, channel ∈ good -> channel ∈ good'.
Proof.
  intros Hshape Hp Hrun.
  destruct (scan_carriers_Returned_inv g N M C c_i c_j p _ Hshape Hrun) as [Hscan HC].
  rewrite (scan_carriers_spec g N M C Hshape HC c_i c_j Hscan) in Hrun.
  injection Hrun as <- <-.
  exists (spec_admissible g c_i c_j p'). split.
  - apply (scan_carriers_spec g N M C Hshape HC c_i c_j Hscan).
  - intros channel. rewrite !elem_of_spec_admissible. lia.
Qed.

Lemma scan_carriers_monotone_witness :
  ∃ good', scan_carriers 5 5 (np_zeros 18 22 40) 3 = Returned (good', replicate 40 0)
           ∧ ∀ channel, channel ∈ seqZ 0 40 -> channel ∈ good'.
Proof.
  apply (scan_carriers_monotone (np_zeros 18 22 40) 18 22 40 5 5 0 3).
  - apply np_zeros_shape.
  - lia.
  - vm_compute. reflexivity.
Defined.

(** ** The neighbourhood is symmetric *)

Lemma create_neighbour_coords_offsets (c_i c_j : Z) :
  create_neighbour_coords c_i c_j
  = (fun o => (c_i + o.1, c_j + o.2)) <$> neighbour_offsets_list.
Proof.
  rewrite create_neighbour_coords_eq. unfold neighbour_offsets_list. simpl.
  repeat (f_equal; try lia).
Qed.

Lemma neighbour_offsets_negate (o : Z * Z) :
  o ∈ neighbour_offsets_list -> (- o.1, - o.2) ∈ neighbour_offsets_list.
Proof.
  revert o. apply Forall_forall. vm_compute.
  repeat constructor; repeat first [by left | right].
Qed.

(** X3: the neighbourhood relation is symmetric: for two centres whose
    neighbour coordinates fit int64, one is among the 18 rows the function
    returns for the other exactly when the other is among its own. *)
Theorem neighbours_symmetric (a_i a_j b_i b_j : Z) :
  int64_centre a_i a_j -> int64_centre b_i b_j ->
  (a_i, a_j) ∈ (neighbour_array b_i b_j).2
  <-> (b_i, b_j) ∈ (neighbour_array a_i a_j).2.
Proof.
  intros Ha Hb.
  rewrite (neighbour_array_int64 a_i a_j Ha), (neighbour_array_int64 b_i b_j Hb).
  cbn [snd].
  assert (∀ x_i x_j y_i y_j,
            (x_i, x_j) ∈ create_neighbour_coords y_i y_j ->
            (y_i, y_j) ∈ create_neighbour_coords x_i x_j) as Hhalf.
  { intros x_i x_j y_i y_j. rewrite !create_neighbour_coords_offsets.
    intros ([di dj] & Heq & Ho)%list_elem_of_fmap. simpl in Heq.
    injection Heq as -> ->.
    apply list_elem_of_fmap. exists (- di, - dj). split.
    - simpl. f_equal; lia.
    - by apply (neighbour_offsets_negate (di, dj)). }
  split; apply Hhalf.
Qed.

(** ** What one allocation records and what it leaves alone *)

Lemma grid_get_out_of_range (g : grid) (N M C : nat) (i j channel : Z) :
  grid_shape g N M C ->
  ¬ (in_range N i ∧ in_range M j ∧ in_range C channel) ->
  grid_get g i j channel = Raised IndexError.
Proof.
  intros Hshape Hout. apply index_only_not_Returned; [apply index_only_grid_get|].
  intros w Hw. apply Hout. by eapply grid_get_in_range.
Qed.



(** X5: a successful allocation changes one grid cell and one dict entry:
    the grid keeps its shape, every cell other than the slot of the chosen
    channel reads as before, and every carrier code other than the new one
    keeps its entry. *)
Theorem allocation_frame (s : state) (N M C fuel : nat) (r : carrier_info) (v : Z) :
  grid_shape (channel_list s) N M C -> (40 <= C)%nat ->
  scannable N M (nc_i r) (nc_j r) ->
  py_float (nc_ucode r) = Returned v ->
  (Z.to_nat (119 - nc_priority r) <= fuel)%nat ->
  ∃ out s' channel rest,
    allocate_carrier fuel s r = (Returned out, s')
    ∧ good_channels out = channel :: rest
    ∧ grid_shape (channel_list s') N M C
    ∧ grid_get (channel_list s') (nc_i r) (nc_j r) channel = Returned v
    ∧ (∀ i j c,
         (resolve N i, resolve M j, resolve C c)
         ≠ (resolve N (nc_i r), resolve M (nc_j r), resolve C channel) ->
         grid_get (channel_list s') i j c = grid_get (channel_list s) i j c)
    ∧ (∀ k, k ≠ carrier_code_of (nc_i r) (nc_j r) channel (nc_ucode r) ->
            allocated_carriers s' !! k = allocated_carriers s !! k).
Proof.
  intros Hshape HC Hscan Hv Hfuel.
  destruct (allocate_carrier_spec s N M C Hshape HC fuel r v Hscan Hv Hfuel)
    as (T & channel & rest & HT & E & _ & Hrun).
  destruct (spec_admissible_head _ _ _ _ _ _ E) as (Hch & _ & _).
  destruct (scannable_centre _ _ _ _ Hscan) as [Hi Hj].
  assert (in_range C channel) as Hc by (unfold in_range; lia).
  eexists _, _, channel, rest. split; [exact Hrun|].
  cbn [good_channels channel_list allocated_carriers].
  rewrite <- (resolve_nonneg C channel) by lia.
  pose proof (write_at_shape _ N M C Hshape (resolve N (nc_i r)) (resolve M (nc_j r))
                (resolve C channel) v) as Hshape'.
  split; [done|]. split; [done|]. split; [|split].
  - rewrite (grid_get_shaped _ N M C Hshape') by done.
    rewrite (cell_at_write_at _ N M C Hshape) by (by apply resolve_lt).
    by rewrite decide_True.
  - intros i j c Hne.
    destruct (decide (in_range N i ∧ in_range M j ∧ in_range C c)) as [(?&?&?)|Hout].
    + rewrite (grid_get_shaped _ N M C Hshape'), (grid_get_shaped _ N M C Hshape) by done.
      rewrite (cell_at_write_at _ N M C Hshape) by (by apply resolve_lt).
      rewrite decide_False; [done|]. intros (? & ? & ?). apply Hne. congruence.
    + by rewrite (grid_get_out_of_range _ N M C _ _ _ Hshape'),
        (grid_get_out_of_range _ N M C _ _ _ Hshape).
  - intros k Hk. by rewrite lookup_insert_ne.
Qed.

Lemma allocation_frame_witness :
  ∃ out s' channel rest,
    allocate_carrier 119 (State (np_zeros 18 22 40) ∅) (CarrierInfo 5 5 0 "1")
    = (Returned out, s')
    ∧ good_channels out = channel :: rest
    ∧ grid_shape (channel_list s') 18 22 40
    ∧ grid_get (channel_list s') 5 5 channel = Returned 1
    ∧ (∀ i j c,
         (resolve 18 i, resolve 22 j, resolve 40 c)
         ≠ (resolve 18 5, resolve 22 5, resolve 40 channel) ->
         grid_get (channel_list s') i j c = grid_get (np_zeros 18 22 40) i j c)
    ∧ (∀ k, k ≠ carrier_code_of 5 5 channel "1" ->
            allocated_carriers s' !! k = (∅ : gmap string Z) !! k).
Proof.
  apply (allocation_frame (State (np_zeros 18 22 40) ∅) 18 22 40 119
           (CarrierInfo 5 5 0 "1") 1).
  - apply np_zeros_shape.
  - lia.
  - unfold scannable, in_range. simpl. lia.
  - reflexivity.
  - simpl. lia.
Defined.

(** ** Invariants of the allocation loop *)

Lemma allocate_carrier_consistent (s : state) (N M C fuel : nat) (r : carrier_info)
    (out : processed_carrier) (s' : state) :
  (40 <= C)%nat ->
  grid_shape (channel_list s) N M C ->
  registry_consistent s ->
  request_fits N M fuel r ->
  allocate_carrier fuel s r = (Returned out, s') ->
  grid_shape (channel_list s') N M C ∧ registry_consistent s'.
Proof.
  intros HC Hshape Hcons (Hscan & (v & Hv & Hv0) & Hfuel) Hrun.
  destruct (allocate_carrier_spec s N M C Hshape HC fuel r v Hscan Hv Hfuel)
    as (T & channel & rest & HT & E & _ & Hrun').
  rewrite Hrun' in Hrun. injection Hrun as <- <-. clear Hrun'.
  destruct (spec_admissible_head _ _ _ _ _ _ E) as (Hch & _ & _).
  destruct (scannable_centre _ _ _ _ Hscan) as [Hi Hj].
  set (g' := write_at _ _ _ _ _).
  assert (grid_shape g' N M C) as Hshape' by (by apply write_at_shape).
  split; [done|].
  intros i j c u. cbn [allocated_carriers channel_list].
  intros [Heq|[_ Hold]]%lookup_insert_is_Some.
  - apply carrier_code_of_inj in Heq as (<- & <- & <- & <-).
    apply (occupied_cell _ N M C); [done|].
    split; [done|]. split; [done|]. split; [unfold in_range; lia|].
    unfold g'. rewrite (cell_at_write_at _ N M C Hshape)
      by (first [by apply resolve_lt | lia]).
    rewrite (resolve_nonneg C channel) by lia. by rewrite decide_True.
  - apply Hcons in Hold.
    apply (occupied_cell _ N M C) in Hold as (Hi' & Hj' & Hc' & Hw); [|done].
    apply (occupied_cell _ N M C); [done|].
    split; [done|]. split; [done|]. split; [done|].
    unfold g'. rewrite (cell_at_write_at _ N M C Hshape)
      by (first [by apply resolve_lt | lia]).
    by destruct (decide _).
Qed.

(** X6: the allocation loop keeps the grid rectangular and, when every
    identity is numeric and not zero, keeps every carrier code of the dict
    on an occupied slot, whatever the final priorities are. *)
Theorem allocation_keeps_consistency (N M C fuel : nat)
    (new_carrier_list : list carrier_info) (s : state)
    (outs : list processed_carrier) (s' : state) :
  grid_shape (channel_list s) N M C -> (40 <= C)%nat ->
  registry_consistent s ->
  Forall (request_fits N M fuel) new_carrier_list ->
  allocate_carriers fuel s new_carrier_list = (Returned outs, s') ->
  grid_shape (channel_list s') N M C ∧ registry_consistent s'.
Proof.
  intros Hshape HC. revert s outs s' Hshape.
  induction new_carrier_list as [|r rest IH]; intros s outs s' Hshape Hcons Hfit Hrun.
  - injection Hrun as <- <-. done.
  - apply Forall_cons in Hfit as [Hr Hrest].
    cbn [allocate_carriers] in Hrun.
    destruct (allocate_carrier fuel s r) as [[out| |] s1] eqn:Hstep; [|done..].
    destruct (allocate_carriers fuel s1 rest) as [[outs1| |] s2] eqn:Hsteps; [|done..].
    injection Hrun as <- <-.
    destruct (allocate_carrier_consistent s N M C fuel r out s1) as [H1 H2]; [done..|].
    by eapply IH.
Qed.

Lemma allocation_keeps_consistency_witness :
  grid_shape
    (channel_list
       (allocate_carriers 119 (State (np_zeros 18 22 40) ∅)
          [CarrierInfo 5 5 0 "1"; CarrierInfo 5 5 0 "2"]).2) 18 22 40
  ∧ registry_consistent
      (allocate_carriers 119 (State (np_zeros 18 22 40) ∅)
         [CarrierInfo 5 5 0 "1"; CarrierInfo 5 5 0 "2"]).2.
Proof.
  assert (match allocate_carriers 119 (State (np_zeros 18 22 40) ∅)
                  [CarrierInfo 5 5 0 "1"; CarrierInfo 5 5 0 "2"] with
          | (Returned outs, _) => true
          | _ => false
          end = true) as H
    by (vm_compute; reflexivity).
  destruct (allocate_carriers 119 (State (np_zeros 18 22 40) ∅)
              [CarrierInfo 5 5 0 "1"; CarrierInfo 5 5 0 "2"])
    as [[outs| |] s'] eqn:Hrun; [|discriminate H..].
  apply (allocation_keeps_consistency 18 22 40 119
           [CarrierInfo 5 5 0 "1"; CarrierInfo 5 5 0 "2"]
           (State (np_zeros 18 22 40) ∅) outs s').
  - apply np_zeros_shape.
  - lia.
  - intros i j channel u [x Hx]. simpl in Hx. by rewrite lookup_empty in Hx.
  - repeat constructor; unfold scannable, in_range; simpl; try lia;
      eexists; (split; [reflexivity|lia]).
  - exact Hrun.
Defined.

(** ** Requests that fail *)

Lemma assign_carrier_Raised (s : state) (c_i c_j channel : Z) (ucode : string)
    (priority : Z) (e : exn) (s' : state) :
  assign_carrier s c_i c_j channel ucode priority = (Raised e, s') -> s' = s.
Proof.
  unfold assign_carrier. destruct (grid_set _ _ _ _ _); [done| |done].
  by intros [= _ <-].
Qed.

Lemma allocate_carrier_Raised (fuel : nat) (s : state) (r : carrier_info) (e : exn)
    (s' : state) :
  allocate_carrier fuel s r = (Raised e, s') -> s' = s.
Proof.
  unfold allocate_carrier, process_new_carrier.
  destruct (_ ≫= _) as [[[good imp] q]| |]; [|by intros [= _ <-]|done].
  destruct (getitem good 0) as [channel| |]; [|by intros [= _ <-]|done].
  destruct (assign_carrier _ _ _ _ _ _) as [[[]| |] s1] eqn:Hassign; [done| |done].
  intros [= _ <-]. by apply assign_carrier_Raised in Hassign.
Qed.



Lemma grid_set_Raised_value (g : grid) (N M C : nat) (i j channel : Z) (e : exn) :
  grid_shape g N M C ->
  in_range N i -> in_range M j -> in_range C channel ->
  grid_set g i j channel (Raised e) = Raised e.
Proof.
  intros Hshape Hi Hj Hc.
  destruct (shaped_lookup g N M C Hshape (resolve N i) (resolve M j) (resolve C channel))
    as (row & col & Hrow & Hcol & Hlr & Hlc & _); [by apply resolve_lt..|].
  unfold grid_set.
  rewrite (getitem_in_range g i row)
    by (rewrite ?(shape_rows _ _ _ _ Hshape); done).
  rewrite bind_Returned.
  rewrite (getitem_in_range row j col) by (rewrite ?Hlr; done).
  rewrite bind_Returned, Hlc, py_index_in_range by done. done.
Qed.

Lemma foreign_letter_no_digit (a : ascii) :
  foreign_letter a = true -> digit_value a = None ∧ a ≠ "-"%char.
Proof. by destruct a as [[] [] [] [] [] [] [] []]. Qed.

Lemma digits_value_foreign (s : string) :
  has_foreign_letter s = true -> ∀ acc, digits_value acc s = None.
Proof.
  induction s as [|a s IH]; [done|]. cbn [has_foreign_letter digits_value].
  intros [Ha|Hs]%orb_true_iff acc.
  - by destruct (foreign_letter_no_digit a Ha) as [-> _].
  - destruct (digit_value a); [by apply IH|done].
Qed.

(** A string with a letter that no float literal has is one [float] refuses,
    and so does the embedding. *)
Lemma py_float_foreign (u : string) :
  has_foreign_letter u = true -> py_float u = Raised ValueError.
Proof.
  intros Hu. unfold py_float, py_int. destruct u as [|a u]; [done|].
  destruct (decide (a = "-"%char)) as [->|Hsign].
  - cbn [has_foreign_letter] in Hu. apply orb_true_iff in Hu as [Ha|Hu].
    { by destruct (foreign_letter_no_digit _ Ha) as [_ ?]. }
    destruct u as [|b u]; [done|]. by rewrite (digits_value_foreign _ Hu).
  - by rewrite (digits_value_foreign _ Hu).
Qed.

(** X8: a request for a beam that can be scanned, with a baseline float64
    counts in steps of one, but with an identity that [float] cannot read
    (it has a letter that no float literal has) goes through scan and
    escalation, then raises ValueError at the grid write, and changes
    neither grid nor dict. *)
Theorem allocate_carrier_bad_identity (fuel : nat) (s : state) (N M C : nat)
    (r : carrier_info) :
  grid_shape (channel_list s) N M C -> (40 <= C)%nat ->
  scannable N M (nc_i r) (nc_j r) ->
  exact_priority (nc_priority r) ->
  (Z.to_nat (119 - nc_priority r) <= fuel)%nat ->
  has_foreign_letter (nc_ucode r) = true ->
  allocate_carrier fuel s r = (Raised ValueError, s).
Proof.
  intros Hshape HC Hscan _ Hfuel Hv%py_float_foreign.
  destruct (scan_escalate_spec _ N M C Hshape HC _ _ Hscan fuel (nc_priority r) Hfuel)
    as (T & HT & Hne & _ & Hrun).
  destruct (spec_admissible (channel_list s) (nc_i r) (nc_j r) T)
    as [|channel rest] eqn:E; [done|].
  destruct (spec_admissible_head _ _ _ _ _ _ E) as (Hch & _ & _).
  destruct (scannable_centre _ _ _ _ Hscan) as [Hi Hj].
  unfold allocate_carrier, process_new_carrier. rewrite Hrun, getitem_head.
  unfold assign_carrier. rewrite Hv.
  by rewrite (grid_set_Raised_value _ N M C) by (done || unfold in_range; lia).
Qed.

Lemma allocate_carrier_bad_identity_witness :
  allocate_carrier 119 (State (np_zeros 18 22 40) ∅) (CarrierInfo 5 5 0 "u1")
  = (Raised ValueError, State (np_zeros 18 22 40) ∅).
Proof.
  apply (allocate_carrier_bad_identity 119 (State (np_zeros 18 22 40) ∅) 18 22 40).
  - apply np_zeros_shape.
  - lia.
  - unfold scannable, in_range. simpl. lia.
  - unfold exact_priority. simpl. lia.
  - simpl. lia.
  - reflexivity.
Defined.

Lemma allocate_carriers_app (fuel : nat) (l1 l2 : list carrier_info) :
  ∀ s, allocate_carriers fuel s (l1 ++ l2)
       = match allocate_carriers fuel s l1 with
         | (Returned outs1, s1) =>
             match allocate_carriers fuel s1 l2 with
             | (Returned outs2, s2) => (Returned (outs1 ++ outs2), s2)
             | r => r
             end
         | r => r
         end.
Proof.
  induction l1 as [|r l1 IH]; intros s.
  - simpl. by destruct (allocate_carriers fuel s l2) as [[?| |] ?].
  - cbn [app allocate_carriers].
    destruct (allocate_carrier fuel s r) as [[out| |] s1]; [|done..].
    rewrite IH.
    destruct (allocate_carriers fuel s1 l1) as [[outs1| |] s2]; [|done..].
    by destruct (allocate_carriers fuel s2 l2) as [[?| |] ?].
Qed.

(** X9: the loop stops at the first request that raises: the commits of the
    requests before it are in the state it leaves, the failing request adds
    nothing to it, the requests after it are not looked at, and
    [base_carrier_manager] raises the same exception. *)
Theorem allocation_stops_at_failure (fuel : nat) (s : state)
    (before after : list carrier_info) (r : carrier_info)
    (outs : list processed_carrier) (s1 s2 : state) (e : exn) :
  allocate_carriers fuel s before = (Returned outs, s1) ->
  allocate_carrier fuel s1 r = (Raised e, s2) ->
  allocate_carriers fuel s (before ++ r :: after) = (Raised e, s1)
  ∧ ∀ n_i n_j channels,
      s = State (np_zeros (n_i + 4) (n_j + 8) 40) ∅ ->
      base_carrier_manager fuel (before ++ r :: after) n_i n_j channels [] = Raised e.
Proof.
  intros Hbefore Hr.
  assert (s2 = s1) as -> by (by eapply allocate_carrier_Raised).
  assert (allocate_carriers fuel s (before ++ r :: after) = (Raised e, s1)) as Hrun.
  { rewrite allocate_carriers_app, Hbefore. cbn [allocate_carriers]. by rewrite Hr. }
  split; [done|].
  intros n_i n_j channels ->. unfold base_carrier_manager. cbn [length].
  rewrite decide_False by lia. rewrite bind_Returned. by rewrite Hrun.
Qed.

Lemma allocation_stops_at_failure_witness :
  allocate_carriers 119 (State (np_zeros 18 22 40) ∅)
    ([] ++ CarrierInfo 5 5 0 "u1" :: [CarrierInfo 5 5 0 "2"])
  = (Raised ValueError, State (np_zeros 18 22 40) ∅)
  ∧ ∀ n_i n_j channels,
      State (np_zeros 18 22 40) ∅ = State (np_zeros (n_i + 4) (n_j + 8) 40) ∅ ->
      base_carrier_manager 119 ([] ++ CarrierInfo 5 5 0 "u1" :: [CarrierInfo 5 5 0 "2"])
        n_i n_j channels [] = Raised ValueError.
Proof.
  apply (allocation_stops_at_failure 119 (State (np_zeros 18 22 40) ∅) []
           [CarrierInfo 5 5 0 "2"] (CarrierInfo 5 5 0 "u1") []
           (State (np_zeros 18 22 40) ∅) (State (np_zeros 18 22 40) ∅) ValueError).
  - reflexivity.
  - vm_compute. reflexivity.
Defined.

(** ** How a write changes the scores *)

Lemma create_neighbour_coords_NoDup (c_i c_j : Z) :
  NoDup (create_neighbour_coords c_i c_j).
Proof.
  rewrite create_neighbour_coords_offsets. apply NoDup_fmap_2.
  - intros [a b] [a' b'] [= H1 H2]. f_equal; lia.
  - apply (bool_decide_unpack (NoDup neighbour_offsets_list)). vm_compute. exact I.
Qed.

Lemma filter_length_flip {A : Type} `{!EqDecision A} (P P' : A -> Prop)
    `{!∀ x, Decision (P x)} `{!∀ x, Decision (P' x)} (x0 : A) (l : list A) :
  NoDup l ->
  (∀ x, x ∈ l -> x ≠ x0 -> (P' x <-> P x)) ->
  Z.of_nat (length (filter P' l))
  = Z.of_nat (length (filter P l))
    + (if decide (x0 ∈ l)
       then (if decide (P' x0) then 1 else 0) - (if decide (P x0) then 1 else 0)
       else 0).
Proof.
  induction 1 as [|x l Hx Hl IH]; intros Hsame.
  - rewrite decide_False by apply not_elem_of_nil. done.
  - rewrite !filter_cons.
    specialize (IH ltac:(intros y Hy; apply Hsame; by apply list_elem_of_further)).
    destruct (decide (x = x0)) as [->|Hne].
    + destruct (decide (x0 ∈ x0 :: l)) as [_|Hn];
        [|destruct Hn; apply list_elem_of_here].
      destruct (decide (x0 ∈ l)) as [?|_]; [done|].
      destruct (decide (P' x0)), (decide (P x0)); simpl length; lia.
    + assert (P' x <-> P x) as Hiff by (apply Hsame; [apply list_elem_of_here|done]).
      assert (x0 ∈ x :: l <-> x0 ∈ l) as Hmem
        by (rewrite elem_of_cons; split; [intros [?|?]; [congruence|done]|by right]).
      destruct (decide (x0 ∈ x :: l)) as [H1|H1], (decide (x0 ∈ l)) as [H2|H2];
        try tauto;
        destruct (decide (P' x)), (decide (P x)); try tauto; simpl length; lia.
Qed.

Lemma in_region_bounds (N M : nat) (c_i c_j : Z) (x : Z * Z) :
  scannable N M c_i c_j ->
  in_region c_i c_j x ->
  (-2 <= x.1 - c_i <= 2) ∧ (-4 <= x.2 - c_j <= 4)
  ∧ in_range N x.1 ∧ in_range M x.2.
Proof.
  unfold scannable, in_range, in_region.
  intros Hscan [->|Hx]; [simpl; lia|].
  destruct x as [i j]. apply neighbour_offsets in Hx. simpl. lia.
Qed.

Section Scores.
Context (g : grid) (N M C : nat) (Hshape : grid_shape g N M C).
Context (HC : (40 <= C)%nat) (HN : (5 <= N)%nat) (HM : (9 <= M)%nat).
Context (c_i c_j : Z) (Hscan : scannable N M c_i c_j).

Lemma region_resolve_inj (x y : Z * Z) :
  in_region c_i c_j x -> in_region c_i c_j y ->
  resolve N x.1 = resolve N y.1 -> resolve M x.2 = resolve M y.2 -> x = y.
Proof.
  intros Hx%(in_region_bounds N M c_i c_j) Hy%(in_region_bounds N M c_i c_j); [|done..].
  destruct x as [i j], y as [i' j']. simpl in *.
  unfold resolve, in_range in *. intros H1 H2.
  f_equal; repeat case_decide; lia.
Qed.

Lemma occupied_after_write (x0 x : Z * Z) (ch c v : Z) :
  in_region c_i c_j x0 -> in_region c_i c_j x -> 0 <= ch < 40 -> 0 <= c < 40 ->
  occupied (write_at g (resolve N x0.1) (resolve M x0.2) (Z.to_nat ch) v) x.1 x.2 c
  <-> (if decide (x = x0 ∧ c = ch) then v ≠ 0 else occupied g x.1 x.2 c).
Proof.
  intros Hx0 Hx Hch Hc.
  pose proof (in_region_bounds N M c_i c_j _ Hscan Hx0) as (_ & _ & Hi0 & Hj0).
  pose proof (in_region_bounds N M c_i c_j _ Hscan Hx) as (_ & _ & Hi & Hj).
  assert (in_range C c) as Hc' by (unfold in_range; lia).
  pose proof (write_at_shape g N M C Hshape (resolve N x0.1) (resolve M x0.2)
                (Z.to_nat ch) v) as Hshape'.
  rewrite (occupied_cell _ N M C _ _ _ Hshape').
  rewrite (cell_at_write_at g N M C Hshape) by (first [by apply resolve_lt | lia]).
  rewrite (resolve_nonneg C c) by lia.
  destruct (decide (x = x0 ∧ c = ch)) as [[-> ->]|Hne].
  - rewrite decide_True by done. tauto.
  - rewrite (occupied_cell g N M C _ _ _ Hshape).
    rewrite (resolve_nonneg C c) by lia.
    rewrite decide_False; [tauto|].
    intros (H1 & H2 & H3). apply Hne. split; [by apply region_resolve_inj|lia].
Qed.

Lemma spec_score_after_write (x0 : Z * Z) (ch c v : Z) :
  in_region c_i c_j x0 -> 0 <= ch < 40 -> 0 <= c < 40 ->
  spec_score (write_at g (resolve N x0.1) (resolve M x0.2) (Z.to_nat ch) v) c_i c_j c
  = spec_score g c_i c_j c
    + (if decide (c = ch)
       then penalty (c_i, c_j) x0
            * ((if decide (v ≠ 0) then 1 else 0)
               - (if decide (occupied g x0.1 x0.2 ch) then 1 else 0))
       else 0).
Proof.
  intros Hx0 Hch Hc. unfold spec_score.
  set (g' := write_at _ _ _ _ _).
  assert (in_region c_i c_j (c_i, c_j)) as Hcentre by (by left).
  assert ((c_i, c_j) ∉ create_neighbour_coords c_i c_j) as Hnotin.
  { intros H%neighbour_offsets. by destruct H as (_ & _ & H). }
  pose proof (occupied_after_write x0 (c_i, c_j) ch c v Hx0 Hcentre Hch Hc) as Hself.
  simpl in Hself. fold g' in Hself.
  rewrite (filter_length_flip (fun x => occupied g x.1 x.2 c)
             (fun x => occupied g' x.1 x.2 c) x0
             (create_neighbour_coords c_i c_j) (create_neighbour_coords_NoDup c_i c_j)).
  2:{ intros x Hx Hne. unfold g'.
      rewrite (occupied_after_write x0 x ch c v) by (done || by right).
      rewrite decide_False; [done|]. by intros [? _]. }
  pose proof (occupied_after_write x0 x0 ch c v Hx0 Hx0 Hch Hc) as Hat.
  fold g' in Hat. unfold penalty.
  destruct (decide (c = ch)) as [->|Hcne].
  - rewrite decide_True in Hat by done.
    destruct (decide (x0 = (c_i, c_j))) as [->|Hx0ne].
    + rewrite decide_True in Hself by done. simpl.
      rewrite (decide_False (P := (c_i, c_j) ∈ _)) by done.
      destruct (decide (occupied g' c_i c_j ch)), (decide (v ≠ 0)),
        (decide (occupied g c_i c_j ch)); try tauto; lia.
    + rewrite decide_False in Hself by (intros [? _]; congruence).
      assert (x0 ∈ create_neighbour_coords c_i c_j) as Hin
        by (unfold in_region in Hx0; destruct Hx0 as [?|?]; [congruence|done]).
      rewrite (decide_True (P := x0 ∈ _)) by done.
      destruct (decide (occupied g' c_i c_j ch)), (decide (occupied g c_i c_j ch)),
        (decide (occupied g' x0.1 x0.2 ch)), (decide (v ≠ 0)),
        (decide (occupied g x0.1 x0.2 ch)); try tauto; lia.
  - rewrite decide_False in Hat by (by intros [_ ?]).
    rewrite decide_False in Hself by (by intros [_ ?]).
    destruct (decide (occupied g' c_i c_j c)), (decide (occupied g c_i c_j c)),
      (decide (x0 ∈ create_neighbour_coords c_i c_j)),
      (decide (occupied g' x0.1 x0.2 c)), (decide (occupied g x0.1 x0.2 c));
      try tauto; lia.
Qed.

Lemma padded_scores_after_write (x0 : Z * Z) (ch v : Z) :
  in_region c_i c_j x0 -> 0 <= ch < 40 ->
  padded_scores (write_at g (resolve N x0.1) (resolve M x0.2) (Z.to_nat ch) v) c_i c_j C
  = <[Z.to_nat ch :=
        spec_score g c_i c_j ch
        + penalty (c_i, c_j) x0
          * ((if decide (v ≠ 0) then 1 else 0)
             - (if decide (occupied g x0.1 x0.2 ch) then 1 else 0))]>
      (padded_scores g c_i c_j C)
  ∧ padded_scores g c_i c_j C !! Z.to_nat ch = Some (spec_score g c_i c_j ch).
Proof.
  intros Hx0 Hch. unfold padded_scores.
  assert (∀ h, (spec_score h c_i c_j <$> seqZ 0 40) !! Z.to_nat ch
               = Some (spec_score h c_i c_j ch)) as Hlook.
  { intros h. rewrite list_lookup_fmap, lookup_seqZ_lt by lia.
    simpl. f_equal. f_equal. lia. }
  split; [|by rewrite lookup_app_l by (rewrite length_fmap, length_seqZ; lia)].
  rewrite insert_app_l by (rewrite length_fmap, length_seqZ; lia).
  f_equal. apply list_eq. intros n.
  destruct (decide (n = Z.to_nat ch)) as [->|Hn].
  - rewrite list_lookup_insert_eq by (rewrite length_fmap, length_seqZ; lia).
    rewrite Hlook, (spec_score_after_write x0 ch ch v) by done.
    by rewrite decide_True.
  - rewrite list_lookup_insert_ne by done. rewrite !list_lookup_fmap.
    destruct (seqZ 0 40 !! n) as [c|] eqn:Hc; [|done]. simpl. f_equal.
    apply lookup_seqZ in Hc as [-> Hlt].
    rewrite (spec_score_after_write x0 ch _ v) by (done || lia).
    rewrite decide_False by lia. lia.
Qed.
End Scores.

Lemma scan_after_write (g : grid) (N M C : nat) (c_i c_j : Z) (x0 : Z * Z)
    (ch v q : Z) :
  grid_shape g N M C -> (40 <= C)%nat -> (5 <= N)%nat -> (9 <= M)%nat ->
  scannable N M c_i c_j -> in_region c_i c_j x0 -> 0 <= ch < 40 ->
  let g' := write_at g (resolve N x0.1) (resolve M x0.2) (Z.to_nat ch) v in
  let change := penalty (c_i, c_j) x0
                * ((if decide (v ≠ 0) then 1 else 0)
                   - (if decide (occupied g x0.1 x0.2 ch) then 1 else 0)) in
  ∃ good scores good' x,
    scan_carriers c_i c_j g q = Returned (good, scores)
    ∧ scores !! Z.to_nat ch = Some x
    ∧ scan_carriers c_i c_j g' q
      = Returned (good', <[Z.to_nat ch := x + change]> scores)
    ∧ (change <= 0 -> ∀ c, c ∈ good -> c ∈ good')
    ∧ (0 <= change -> ∀ c, c ∈ good' -> c ∈ good).
Proof.
  intros Hshape HC HN HM Hscan Hx0 Hch g' change.
  pose proof (write_at_shape g N M C Hshape (resolve N x0.1) (resolve M x0.2)
                (Z.to_nat ch) v) as Hshape'.
  destruct (padded_scores_after_write g N M C Hshape HC HN HM c_i c_j Hscan x0 ch v
              Hx0 Hch) as [Hafter Hbefore].
  exists (spec_admissible g c_i c_j q), (padded_scores g c_i c_j C),
    (spec_admissible g' c_i c_j q), (spec_score g c_i c_j ch).
  split; [apply (scan_carriers_spec g N M C Hshape HC c_i c_j Hscan)|].
  split; [exact Hbefore|].
  split.
  { rewrite (scan_carriers_spec g' N M C Hshape' HC c_i c_j Hscan).
    f_equal. f_equal. exact Hafter. }
  assert (∀ c, 0 <= c < 40 ->
               spec_score g' c_i c_j c
               = spec_score g c_i c_j c + (if decide (c = ch) then change else 0))
    as Hscore.
  { intros c Hc.
    apply (spec_score_after_write g N M C Hshape HC HN HM c_i c_j Hscan x0 ch c v);
      done. }
  split; intros Hsign c; rewrite !elem_of_spec_admissible; intros [Hc Hle];
    (split; [done|]); rewrite Hscore in * by done; destruct (decide (c = ch)); lia.
Qed.

Lemma penalty_pos (centre b : Z * Z) : 1 <= penalty centre b.
Proof. unfold penalty. case_decide; lia. Qed.

(** X10: a commit into a free slot of a beam of the 19-beam region of a
    centre raises the score of the channel in every later scan of that
    centre, by 100 when the beam is the centre and by 1 when it is a
    neighbour; the other scores stay, and no channel becomes admissible.
    The grid has at least 5 rows and 9 columns, so that the 19 beams are 19
    different cells. *)
Theorem commit_raises_score (s : state) (N M C : nat) (c_i c_j b_i b_j channel : Z)
    (ucode : string) (priority v q : Z) :
  grid_shape (channel_list s) N M C -> (40 <= C)%nat -> (5 <= N)%nat -> (9 <= M)%nat ->
  scannable N M c_i c_j ->
  in_region c_i c_j (b_i, b_j) -> 0 <= channel < 40 ->
  py_float ucode = Returned v -> v ≠ 0 ->
  ¬ occupied (channel_list s) b_i b_j channel ->
  ∃ s' good scores good' x,
    assign_carrier s b_i b_j channel ucode priority = (Returned (), s')
    ∧ scan_carriers c_i c_j (channel_list s) q = Returned (good, scores)
    ∧ scores !! Z.to_nat channel = Some x
    ∧ scan_carriers c_i c_j (channel_list s') q
      = Returned (good', <[Z.to_nat channel := x + penalty (c_i, c_j) (b_i, b_j)]> scores)
    ∧ ∀ c, c ∈ good' -> c ∈ good.
Proof.
  intros Hshape HC HN HM Hscan Hb Hch Hv Hv0 Hfree.
  pose proof (in_region_bounds N M c_i c_j _ Hscan Hb) as (_ & _ & Hi & Hj).
  simpl in Hi, Hj.
  destruct (scan_after_write (channel_list s) N M C c_i c_j (b_i, b_j) channel v q)
    as (good & scores & good' & x & H1 & H2 & H3 & _ & H4); [done..|].
  simpl in H3, H4.
  rewrite decide_True in H3, H4 by done.
  rewrite decide_False in H3, H4 by done.
  rewrite Z.sub_0_r, Z.mul_1_r in H3, H4.
  eexists _, good, scores, good', x.
  split.
  { rewrite (assign_carrier_shaped s N M C Hshape b_i b_j channel ucode priority v)
      by (done || unfold in_range; lia).
    reflexivity. }
  cbn [channel_list]. rewrite (resolve_nonneg C channel) by lia.
  split; [done|]. split; [done|]. split; [done|].
  apply H4. pose proof (penalty_pos (c_i, c_j) (b_i, b_j)). lia.
Qed.

Lemma commit_raises_score_witness :
  ∃ s' good scores good' x,
    assign_carrier (State (np_zeros 18 22 40) ∅) 5 7 3 "8" 0 = (Returned (), s')
    ∧ scan_carriers 5 5 (np_zeros 18 22 40) 0 = Returned (good, scores)
    ∧ scores !! Z.to_nat 3 = Some x
    ∧ scan_carriers 5 5 (channel_list s') 0
      = Returned (good', <[Z.to_nat 3 := x + penalty (5, 5) (5, 7)]> scores)
    ∧ ∀ c, c ∈ good' -> c ∈ good.
Proof.
  apply (commit_raises_score (State (np_zeros 18 22 40) ∅) 18 22 40 5 5 5 7 3 "8" 0 8 0).
  - apply np_zeros_shape.
  - lia.
  - lia.
  - lia.
  - unfold scannable, in_range. simpl. lia.
  - right. rewrite create_neighbour_coords_eq. repeat first [by left | right].
  - lia.
  - reflexivity.
  - lia.
  - vm_compute. tauto.
Defined.

(** X11: deallocating a carrier of a beam of the 19-beam region of a centre
    lowers the score of its channel in every later scan of that centre, by
    100 when the beam is the centre and by 1 when it is a neighbour; the
    other scores stay, and every channel that was admissible still is. *)
Theorem deallocate_lowers_score (s : state) (N M C : nat)
    (c_i c_j b_i b_j channel : Z) (u : string) (priority q : Z) :
  grid_shape (channel_list s) N M C -> (40 <= C)%nat -> (5 <= N)%nat -> (9 <= M)%nat ->
  scannable N M c_i c_j ->
  in_region c_i c_j (b_i, b_j) -> 0 <= channel < 40 -> no_colon u ->
  allocated_carriers s !! carrier_code_of b_i b_j channel u = Some priority ->
  occupied (channel_list s) b_i b_j channel ->
  ∃ s' good scores good' x,
    deallocate_carrier (carrier_code_of b_i b_j channel u) s = (Returned (), s')
    ∧ scan_carriers c_i c_j (channel_list s) q = Returned (good, scores)
    ∧ scores !! Z.to_nat channel = Some x
    ∧ scan_carriers c_i c_j (channel_list s') q
      = Returned (good', <[Z.to_nat channel := x - penalty (c_i, c_j) (b_i, b_j)]> scores)
    ∧ ∀ c, c ∈ good -> c ∈ good'.
Proof.
  intros Hshape HC HN HM Hscan Hb Hch Hu Hkey Hocc.
  pose proof (in_region_bounds N M c_i c_j _ Hscan Hb) as (_ & _ & Hi & Hj).
  simpl in Hi, Hj.
  destruct (scan_after_write (channel_list s) N M C c_i c_j (b_i, b_j) channel 0 q)
    as (good & scores & good' & x & H1 & H2 & H3 & H4 & _); [done..|].
  simpl in H3, H4.
  rewrite decide_True in H3, H4 by done.
  replace (x + penalty (c_i, c_j) (b_i, b_j) * (0 - 1))
    with (x - penalty (c_i, c_j) (b_i, b_j)) in H3 by lia.
  eexists _, good, scores, good', x.
  split.
  { rewrite (deallocate_present s N M C b_i b_j channel u priority)
      by (done || unfold in_range; lia).
    reflexivity. }
  cbn [channel_list]. rewrite (resolve_nonneg C channel) by lia.
  split; [done|]. split; [done|]. split; [done|].
  apply H4. pose proof (penalty_pos (c_i, c_j) (b_i, b_j)). lia.
Qed.

Lemma deallocate_lowers_score_witness :
  ∃ s' good scores good' x,
    deallocate_carrier (carrier_code_of 5 7 3 "8")
      (State (write_at (np_zeros 18 22 40) 5 7 3 8) (<[carrier_code_of 5 7 3 "8" := 0]> ∅))
    = (Returned (), s')
    ∧ scan_carriers 5 5 (write_at (np_zeros 18 22 40) 5 7 3 8) 0 = Returned (good, scores)
    ∧ scores !! Z.to_nat 3 = Some x
    ∧ scan_carriers 5 5 (channel_list s') 0
      = Returned (good', <[Z.to_nat 3 := x - penalty (5, 5) (5, 7)]> scores)
    ∧ ∀ c, c ∈ good -> c ∈ good'.
Proof.
  apply (deallocate_lowers_score
           (State (write_at (np_zeros 18 22 40) 5 7 3 8)
              (<[carrier_code_of 5 7 3 "8" := 0]> ∅))
           18 22 40 5 5 5 7 3 "8" 0 0).
  - apply write_at_shape, np_zeros_shape.
  - lia.
  - lia.
  - lia.
  - unfold scannable, in_range. simpl. lia.
  - right. rewrite create_neighbour_coords_eq. repeat first [by left | right].
  - lia.
  - simpl. done.
  - apply lookup_insert_eq.
  - vm_compute. discriminate.
Defined.

(** ** Commit and deallocation undo each other only in part *)

Lemma write_at_twice (g : grid) (a b c : nat) (v w : Z) :
  write_at (write_at g a b c v) a b c w = write_at g a b c w.
Proof.
  unfold write_at.
  destruct (g !! a) as [row|] eqn:Ha; [|by rewrite Ha].
  destruct (row !! b) as [col|] eqn:Hb; [|by rewrite Ha, Hb].
  rewrite list_lookup_insert_eq by (by eapply lookup_lt_Some).
  rewrite list_lookup_insert_eq by (by eapply lookup_lt_Some).
  by rewrite !list_insert_insert_eq.
Qed.

Lemma write_at_same (g : grid) (a b c : nat) :
  write_at g a b c (cell_at g a b c) = g.
Proof.
  unfold write_at, cell_at.
  destruct (g !! a) as [row|] eqn:Ha; [|done].
  destruct (row !! b) as [col|] eqn:Hb; [|done].
  simpl. rewrite Hb. simpl.
  assert (<[c := default 0 (col !! c)]> col = col) as ->.
  { destruct (col !! c) as [w|] eqn:Hc.
    - by apply list_insert_id.
    - apply list_insert_ge. by apply lookup_ge_None. }
  rewrite (list_insert_id row b col) by done. by apply list_insert_id.
Qed.

Lemma free_cell (g : grid) (N M C : nat) (i j channel : Z) :
  grid_shape g N M C ->
  in_range N i -> in_range M j -> in_range C channel ->
  ¬ occupied g i j channel ->
  cell_at g (resolve N i) (resolve M j) (resolve C channel) = 0.
Proof.
  intros Hshape Hi Hj Hc Hfree.
  destruct (decide (cell_at g (resolve N i) (resolve M j) (resolve C channel) = 0))
    as [?|Hne]; [done|].
  destruct Hfree. by apply (occupied_cell g N M C).
Qed.

(** X12: committing a carrier to a free slot under a code that is not in
    the dict and then deallocating that code gives back the state from
    before the commit, grid and dict. *)
Theorem assign_then_deallocate (s : state) (N M C : nat) (c_i c_j channel : Z)
    (ucode : string) (priority v : Z) :
  grid_shape (channel_list s) N M C ->
  in_range N c_i -> in_range M c_j -> in_range C channel ->
  py_float ucode = Returned v ->
  ¬ occupied (channel_list s) c_i c_j channel ->
  allocated_carriers s !! carrier_code_of c_i c_j channel ucode = None ->
  ∃ s1,
    assign_carrier s c_i c_j channel ucode priority = (Returned (), s1)
    ∧ deallocate_carrier (carrier_code_of c_i c_j channel ucode) s1 = (Returned (), s).
Proof.
  intros Hshape Hi Hj Hc Hv Hfree Hnew.
  eexists. split; [by apply (assign_carrier_shaped s N M C Hshape)|].
  rewrite (deallocate_present _ N M C c_i c_j channel ucode priority); cbn [channel_list allocated_carriers].
  - rewrite write_at_twice, delete_insert_id by done.
    rewrite <- (free_cell (channel_list s) N M C c_i c_j channel) at 1 by done.
    rewrite write_at_same. by destruct s.
  - by apply write_at_shape.
  - by eapply py_int_no_colon.
  - done.
  - done.
  - done.
  - apply lookup_insert_eq.
Qed.

Lemma assign_then_deallocate_witness :
  ∃ s1,
    assign_carrier (State (np_zeros 18 22 40) ∅) 5 5 0 "7" 2 = (Returned (), s1)
    ∧ deallocate_carrier (carrier_code_of 5 5 0 "7") s1
      = (Returned (), State (np_zeros 18 22 40) ∅).
Proof.
  apply (assign_then_deallocate (State (np_zeros 18 22 40) ∅) 18 22 40 5 5 0 "7" 2 7).
  - apply np_zeros_shape.
  - unfold in_range. lia.
  - unfold in_range. lia.
  - unfold in_range. lia.
  - reflexivity.
  - vm_compute. tauto.
  - apply lookup_empty.
Defined.

(** X13: however [deallocate_carrier] fails, the exception that leaves it is
    the one raised inside its handler, UnboundLocalError or IndexError, never
    the KeyError or ValueError of the [try] block; the grid is what it was;
    and the dict is what it was or has lost the entry of the key: the
    handler restores nothing. *)
Theorem deallocate_failure (s : state) (key : string) (e : exn) (s' : state) :
  deallocate_carrier key s = (Raised e, s') ->
  (e = UnboundLocalError ∨ e = IndexError)
  ∧ channel_list s' = channel_list s
  ∧ (allocated_carriers s' = allocated_carriers s
     ∨ (e = IndexError ∧ is_Some (allocated_carriers s !! key)
        ∧ allocated_carriers s' = delete key (allocated_carriers s))).
Proof.
  unfold deallocate_carrier, deallocate_try.
  destruct (re_split ":" key) as [|i [|j [|channel [|ucode [|? ?]]]]];
    try (cbn; intros [= <- <-]; by auto).
  destruct (allocated_carriers s !! key) as [priority|] eqn:Hkey;
    [|cbn; intros [= <- <-]; by auto].
  destruct (_ ≫= _) as [g| |]; [done| |done].
  cbn. intros [= <- <-]. cbn. split; [by right|]. split; [done|].
  right. split; [done|]. split; [by eexists|done].
Qed.

Lemma deallocate_failure_witness :
  (UnboundLocalError = UnboundLocalError ∨ UnboundLocalError = IndexError)
  ∧ channel_list (State (np_zeros 18 22 40) ∅) = channel_list (State (np_zeros 18 22 40) ∅)
  ∧ (allocated_carriers (State (np_zeros 18 22 40) ∅)
     = allocated_carriers (State (np_zeros 18 22 40) ∅)
     ∨ (UnboundLocalError = IndexError
        ∧ is_Some (allocated_carriers (State (np_zeros 18 22 40) ∅) !! "5:5:0:7")
        ∧ allocated_carriers (State (np_zeros 18 22 40) ∅)
          = delete "5:5:0:7" (allocated_carriers (State (np_zeros 18 22 40) ∅)))).
Proof.
  apply (deallocate_failure (State (np_zeros 18 22 40) ∅) "5:5:0:7" UnboundLocalError
           (State (np_zeros 18 22 40) ∅)).
  reflexivity.
Defined.

(** X14: deallocating a code of the dict whose slot is outside the grid
    removes the entry, leaves the grid and raises IndexError: the entry is
    deleted before the grid is indexed, and the handler, which calls
    [assign_carrier] with the strings of the split, fails before it writes
    anything back. *)
Theorem deallocate_outside_grid (s : state) (N M C : nat) (i j channel : Z)
    (u : string) (priority : Z) :
  grid_shape (channel_list s) N M C -> no_colon u ->
  allocated_carriers s !! carrier_code_of i j channel u = Some priority ->
  ¬ (in_range N i ∧ in_range M j ∧ in_range C channel) ->
  deallocate_carrier (carrier_code_of i j channel u) s
  = (Raised IndexError,
     State (channel_list s)
       (delete (carrier_code_of i j channel u) (allocated_carriers s))).
Proof.
  intros Hshape Hu Hkey Hout.
  unfold deallocate_carrier, deallocate_try.
  rewrite re_split_carrier_code by done. rewrite Hkey.
  rewrite (py_int_pretty i), bind_Returned.
  assert ((row ← getitem (channel_list s) i;
           j' ← py_int (pretty j);
           col ← getitem row j';
           channel' ← py_int (pretty channel);
           grid_set (channel_list s) i j' channel' (Returned 0))
          = Raised IndexError) as Hraise.
  { apply index_only_not_Returned.
    - apply index_only_bind; [apply index_only_getitem|]. intros row.
      rewrite (py_int_pretty j), bind_Returned.
      apply index_only_bind; [apply index_only_getitem|]. intros col.
      rewrite (py_int_pretty channel), bind_Returned.
      unfold grid_set.
      apply index_only_bind; [apply index_only_getitem|]. intros row'.
      apply index_only_bind; [apply index_only_getitem|]. intros col'.
      apply index_only_bind; [apply index_only_py_index|]. intros n.
      rewrite bind_Returned.
      apply index_only_bind; [apply index_only_setitem|]. intros row''.
      apply index_only_setitem.
    - intros g Hg.
      apply bind_Returned_inv in Hg as (row & Hrow & Hg).
      rewrite (py_int_pretty j), bind_Returned in Hg.
      apply bind_Returned_inv in Hg as (col & Hcol & Hg).
      rewrite (py_int_pretty channel), bind_Returned in Hg.
      unfold grid_set in Hg.
      apply bind_Returned_inv in Hg as (row' & Hrow' & Hg).
      apply bind_Returned_inv in Hg as (col' & Hcol' & Hg).
      apply bind_Returned_inv in Hg as (n & Hn & Hg).
      assert (∃ w, grid_get (channel_list s) i j channel = Returned w) as [w Hw].
      { unfold grid_get. rewrite Hrow', bind_Returned, Hcol', bind_Returned.
        unfold getitem. rewrite Hn, bind_Returned.
        destruct (col' !! n) as [w|] eqn:Hw; [by exists w|].
        apply lookup_ge_None in Hw. unfold py_index in Hn.
        repeat case_decide; simplify_eq; lia. }
      apply Hout. by eapply grid_get_in_range. }
  rewrite Hraise. reflexivity.
Qed.

Lemma deallocate_outside_grid_witness :
  deallocate_carrier (carrier_code_of 30 5 0 "7")
    (State (np_zeros 18 22 40) (<[carrier_code_of 30 5 0 "7" := 2]> ∅))
  = (Raised IndexError,
     State (channel_list (State (np_zeros 18 22 40) (<[carrier_code_of 30 5 0 "7" := 2]> ∅)))
       (delete (carrier_code_of 30 5 0 "7")
          (allocated_carriers
             (State (np_zeros 18 22 40) (<[carrier_code_of 30 5 0 "7" := 2]> ∅))))).
Proof.
  apply (deallocate_outside_grid
           (State (np_zeros 18 22 40) (<[carrier_code_of 30 5 0 "7" := 2]> ∅))
           18 22 40 30 5 0 "7" 2).
  - apply np_zeros_shape.
  - simpl. done.
  - apply lookup_insert_eq.
  - unfold in_range. lia.
Defined.

(** ** An identity that reads as zero *)

Lemma spec_score_free_le (g : grid) (c_i c_j c : Z) :
  ¬ occupied g c_i c_j c -> spec_score g c_i c_j c <= 18.
Proof.
  intros Hfree. unfold spec_score. rewrite decide_False by done.
  pose proof (length_filter (fun x : Z * Z => occupied g x.1 x.2 c)
                (create_neighbour_coords c_i c_j)) as Hle.
  assert (length (create_neighbour_coords c_i c_j) = 18%nat) as Hlen
    by (by rewrite create_neighbour_coords_offsets, length_fmap).
  lia.
Qed.

(** X15: a request whose identity reads as zero, for a beam with a free
    channel and a baseline below 100 that float64 counts in steps of one,
    is served like any other: it is given a channel and its carrier code
    enters the dict.  But the grid is the
    grid from before, the slot still reads as free, and the dict now holds a
    code of a slot that is not occupied. *)
Theorem zero_identity_invisible (s : state) (N M C fuel : nat) (r : carrier_info) :
  grid_shape (channel_list s) N M C -> (40 <= C)%nat ->
  scannable N M (nc_i r) (nc_j r) ->
  py_float (nc_ucode r) = Returned 0 ->
  (Z.to_nat (119 - nc_priority r) <= fuel)%nat ->
  exact_priority (nc_priority r) ->
  nc_priority r < 100 ->
  (∃ c, (0 <= c < 40) ∧ ¬ occupied (channel_list s) (nc_i r) (nc_j r) c) ->
  ∃ out s' channel rest,
    allocate_carrier fuel s r = (Returned out, s')
    ∧ good_channels out = channel :: rest
    ∧ channel_list s' = channel_list s
    ∧ is_Some (allocated_carriers s'
                 !! carrier_code_of (nc_i r) (nc_j r) channel (nc_ucode r))
    ∧ ¬ occupied (channel_list s') (nc_i r) (nc_j r) channel
    ∧ ¬ registry_consistent s'.
Proof.
  intros Hshape HC Hscan Hv Hfuel _ Hp (c & Hc & Hfree).
  destruct (allocate_carrier_spec s N M C Hshape HC fuel r 0 Hscan Hv Hfuel)
    as (T & channel & rest & HT & E & Hmin & Hrun).
  destruct (spec_admissible_head _ _ _ _ _ _ E) as (Hch & Hscore & _).
  destruct (scannable_centre _ _ _ _ Hscan) as [Hi Hj].
  pose proof (spec_score_free_le _ _ _ _ Hfree) as Hc18.
  assert (T < 100) as HT100.
  { destruct (decide (T < 100)) as [?|Hge]; [done|].
    assert (c ∈ spec_admissible (channel_list s) (nc_i r) (nc_j r)
                  (Z.max (nc_priority r) 18)) as Hin
      by (apply elem_of_spec_admissible; lia).
    rewrite Hmin in Hin by lia. by apply not_elem_of_nil in Hin. }
  assert (¬ occupied (channel_list s) (nc_i r) (nc_j r) channel) as Hfree'
    by (apply spec_score_free; lia).
  assert (write_at (channel_list s) (resolve N (nc_i r)) (resolve M (nc_j r))
            (Z.to_nat channel) 0 = channel_list s) as Hsame.
  { rewrite <- (resolve_nonneg C channel) by lia.
    rewrite <- (free_cell (channel_list s) N M C (nc_i r) (nc_j r) channel) at 1
      by (done || unfold in_range; lia).
    apply write_at_same. }
  rewrite Hsame in Hrun.
  eexists _, _, channel, rest. split; [exact Hrun|].
  cbn [good_channels channel_list allocated_carriers].
  split; [done|]. split; [done|].
  assert (is_Some (<[carrier_code_of (nc_i r) (nc_j r) channel (nc_ucode r)
                     := nc_priority r]> (allocated_carriers s)
                   !! carrier_code_of (nc_i r) (nc_j r) channel (nc_ucode r))) as Hkey
    by (rewrite lookup_insert_eq; by eexists).
  split; [done|]. split; [done|].
  intros Hcons. apply Hfree'. by apply (Hcons _ _ _ _ Hkey).
Qed.

Lemma zero_identity_invisible_witness :
  ∃ out s' channel rest,
    allocate_carrier 119 (State (np_zeros 18 22 40) ∅) (CarrierInfo 5 5 0 "0")
    = (Returned out, s')
    ∧ good_channels out = channel :: rest
    ∧ channel_list s' = np_zeros 18 22 40
    ∧ is_Some (allocated_carriers s' !! carrier_code_of 5 5 channel "0")
    ∧ ¬ occupied (channel_list s') 5 5 channel
    ∧ ¬ registry_consistent s'.
Proof.
  apply (zero_identity_invisible (State (np_zeros 18 22 40) ∅) 18 22 40 119
           (CarrierInfo 5 5 0 "0")).
  - apply np_zeros_shape.
  - lia.
  - unfold scannable, in_range. simpl. lia.
  - reflexivity.
  - simpl. lia.
  - unfold exact_priority. simpl. lia.
  - simpl. lia.
  - exists 0. split; [lia|]. vm_compute. tauto.
Defined.

(** ** Import and export *)













Lemma scan_carriers_unscannable (g : grid) (N M C : nat) (c_i c_j p : Z) :
  grid_shape g N M C ->
  ¬ (scannable N M c_i c_j ∧ (40 <= C)%nat) ->
  scan_carriers c_i c_j g p = Raised IndexError.
Proof.
  intros Hshape Hnot. apply index_only_not_Returned; [apply index_only_scan_carriers|].
  intros res Hres. apply Hnot. by eapply scan_carriers_Returned_inv.
Qed.



(** ** A full beam, and a beam out of sight *)

(** X20: a full beam does not make the allocation refuse.  When all 40
    channels are occupied at the beam of a request whose baseline float64
    counts in steps of one, the request is escalated to a threshold of 100
    or more and is given a channel that another carrier holds there; the
    slot then reads as the new carrier. *)
Theorem full_beam_overwrites (s : state) (N M C fuel : nat) (r : carrier_info) (v : Z) :
  grid_shape (channel_list s) N M C -> (40 <= C)%nat ->
  scannable N M (nc_i r) (nc_j r) ->
  py_float (nc_ucode r) = Returned v ->
  (Z.to_nat (119 - nc_priority r) <= fuel)%nat ->
  exact_priority (nc_priority r) ->
  (∀ c, 0 <= c < 40 -> occupied (channel_list s) (nc_i r) (nc_j r) c) ->
  ∃ out s' channel rest,
    allocate_carrier fuel s r = (Returned out, s')
    ∧ good_channels out = channel :: rest
    ∧ occupied (channel_list s) (nc_i r) (nc_j r) channel
    ∧ grid_get (channel_list s') (nc_i r) (nc_j r) channel = Returned v
    ∧ 100 <= final_priority out.
Proof.
  intros Hshape HC Hscan Hv Hfuel _ Hfull.
  destruct (allocate_carrier_spec s N M C Hshape HC fuel r v Hscan Hv Hfuel)
    as (T & channel & rest & HT & E & _ & Hrun).
  destruct (spec_admissible_head _ _ _ _ _ _ E) as (Hch & Hscore & _).
  destruct (scannable_centre _ _ _ _ Hscan) as [Hi Hj].
  pose proof (Hfull channel Hch) as Hocc.
  assert (100 <= T) as HT100.
  { destruct (decide (100 <= T)) as [?|Hlt]; [done|].
    destruct (spec_score_free (channel_list s) (nc_i r) (nc_j r) channel); [lia|done]. }
  eexists _, _, channel, rest. split; [exact Hrun|].
  cbn [good_channels channel_list final_priority].
  split; [done|]. split; [done|]. split.
  - pose proof (write_at_shape _ N M C Hshape (resolve N (nc_i r)) (resolve M (nc_j r))
                  (Z.to_nat channel) v) as Hshape'.
    rewrite (grid_get_shaped _ N M C Hshape') by (done || unfold in_range; lia).
    rewrite (cell_at_write_at _ N M C Hshape) by (first [by apply resolve_lt | lia]).
    rewrite (resolve_nonneg C channel) by lia. by rewrite decide_True.
  - case_decide; lia.
Qed.

Lemma fill_beam_shape (g : grid) (N M C : nat) (a b : nat) (v : Z) :
  grid_shape g N M C -> grid_shape (fill_beam g a b v) N M C.
Proof.
  intros Hshape. unfold fill_beam.
  induction (seq 0 40) as [|c l IH]; [done|]. cbn [foldr]. by apply write_at_shape.
Qed.

Lemma full_beam_overwrites_witness :
  ∃ out s' channel rest,
    allocate_carrier 119 (State (fill_beam (np_zeros 18 22 40) 5 5 1) ∅)
      (CarrierInfo 5 5 0 "2")
    = (Returned out, s')
    ∧ good_channels out = channel :: rest
    ∧ occupied (fill_beam (np_zeros 18 22 40) 5 5 1) 5 5 channel
    ∧ grid_get (channel_list s') 5 5 channel = Returned 2
    ∧ 100 <= final_priority out.
Proof.
  apply (full_beam_overwrites (State (fill_beam (np_zeros 18 22 40) 5 5 1) ∅)
           18 22 40 119 (CarrierInfo 5 5 0 "2") 2).
  - apply fill_beam_shape, np_zeros_shape.
  - lia.
  - unfold scannable, in_range. simpl. lia.
  - reflexivity.
  - simpl. lia.
  - unfold exact_priority. simpl. lia.
  - intros c Hc. assert (c ∈ seqZ 0 40) as Hin by (apply elem_of_seqZ; lia).
    clear Hc. revert c Hin. apply Forall_forall.
    apply (bool_decide_unpack
             (Forall (fun c => occupied (fill_beam (np_zeros 18 22 40) 5 5 1) 5 5 c)
                (seqZ 0 40))).
    vm_compute. exact I.
Defined.

Lemma occupied_write_elsewhere (g : grid) (N M C : nat) (a b c : nat) (v : Z)
    (i j channel : Z) :
  grid_shape g N M C -> (a < N)%nat -> (b < M)%nat -> (c < C)%nat ->
  (resolve N i, resolve M j) ≠ (a, b) ->
  occupied (write_at g a b c v) i j channel <-> occupied g i j channel.
Proof.
  intros Hshape Ha Hb Hc Hne.
  pose proof (write_at_shape g N M C Hshape a b c v) as Hshape'.
  rewrite (occupied_cell _ N M C _ _ _ Hshape'), (occupied_cell g N M C _ _ _ Hshape).
  rewrite (cell_at_write_at g N M C Hshape) by done.
  rewrite decide_False; [done|]. intros (? & ? & ?). apply Hne. congruence.
Qed.

Lemma spec_score_write_elsewhere (g : grid) (N M C : nat) (a b c : nat) (v : Z)
    (c_i c_j channel : Z) :
  grid_shape g N M C -> (a < N)%nat -> (b < M)%nat -> (c < C)%nat ->
  (∀ x, in_region c_i c_j x -> (resolve N x.1, resolve M x.2) ≠ (a, b)) ->
  spec_score (write_at g a b c v) c_i c_j channel = spec_score g c_i c_j channel.
Proof.
  intros Hshape Ha Hb Hc Hne. unfold spec_score.
  pose proof (occupied_write_elsewhere g N M C a b c v c_i c_j channel Hshape Ha Hb Hc
                (Hne (c_i, c_j) ltac:(by left))) as Hcentre.
  rewrite (filter_length_flip (fun x => occupied g x.1 x.2 channel)
             (fun x => occupied (write_at g a b c v) x.1 x.2 channel) (c_i, c_j)
             (create_neighbour_coords c_i c_j) (create_neighbour_coords_NoDup c_i c_j)).
  2:{ intros x Hx _. apply (occupied_write_elsewhere g N M C); [done..|].
      apply Hne. by right. }
  rewrite (decide_False (P := (c_i, c_j) ∈ _)).
  2:{ intros H%neighbour_offsets. by destruct H as (_ & _ & H). }
  destruct (decide (occupied (write_at g a b c v) c_i c_j channel)),
    (decide (occupied g c_i c_j channel)); try tauto; lia.
Qed.

(** X21: a commit to a slot of the grid that is none of the 19 cells of the
    region of a centre is not seen from that centre: the scan of the centre
    gives the same result after it as before, admissible channels, scores
    or exception.  The cells are compared as the grid addresses them, a
    negative index counting from the far end. *)
Theorem commit_outside_region_unseen (s : state) (N M C : nat)
    (c_i c_j b_i b_j channel : Z) (ucode : string) (priority v q : Z) :
  grid_shape (channel_list s) N M C ->
  in_range N b_i -> in_range M b_j -> in_range C channel ->
  py_float ucode = Returned v ->
  (∀ x, in_region c_i c_j x ->
        (resolve N x.1, resolve M x.2) ≠ (resolve N b_i, resolve M b_j)) ->
  ∃ s',
    assign_carrier s b_i b_j channel ucode priority = (Returned (), s')
    ∧ scan_carriers c_i c_j (channel_list s') q
      = scan_carriers c_i c_j (channel_list s) q.
Proof.
  intros Hshape Hi Hj Hc Hv Hne.
  eexists. split; [by apply (assign_carrier_shaped s N M C Hshape)|].
  cbn [channel_list].
  pose proof (write_at_shape _ N M C Hshape (resolve N b_i) (resolve M b_j)
                (resolve C channel) v) as Hshape'.
  assert (Decision (scannable N M c_i c_j ∧ (40 <= C)%nat)) as [[Hscan HC]|Hnot]
    by (unfold scannable, in_range; apply _).
  - rewrite (scan_carriers_spec _ N M C Hshape' HC c_i c_j Hscan),
      (scan_carriers_spec _ N M C Hshape HC c_i c_j Hscan).
    assert (∀ c, spec_score (write_at (channel_list s) (resolve N b_i) (resolve M b_j)
                               (resolve C channel) v) c_i c_j c
                 = spec_score (channel_list s) c_i c_j c) as Hscore.
    { intros c. apply (spec_score_write_elsewhere _ N M C); [done|..|done];
        by apply resolve_lt. }
    f_equal. f_equal.
    + unfold spec_admissible. apply list_filter_iff. intros c. by rewrite Hscore.
    + f_equal. apply list_fmap_ext. intros ? c _. apply Hscore.
  - by rewrite (scan_carriers_unscannable _ N M C _ _ _ Hshape' Hnot),
      (scan_carriers_unscannable _ N M C _ _ _ Hshape Hnot).
Qed.

Lemma commit_outside_region_unseen_witness :
  ∃ s',
    assign_carrier (State (np_zeros 18 22 40) ∅) 9 9 0 "7" 0 = (Returned (), s')
    ∧ scan_carriers 5 5 (channel_list s') 0 = scan_carriers 5 5 (np_zeros 18 22 40) 0.
Proof.
  apply (commit_outside_region_unseen (State (np_zeros 18 22 40) ∅) 18 22 40
           5 5 9 9 0 "7" 0 7 0).
  - apply np_zeros_shape.
  - unfold in_range. lia.
  - unfold in_range. lia.
  - unfold in_range. lia.
  - reflexivity.
  - intros x Hx. apply (in_region_bounds 18 22 5 5) in Hx.
    + destruct x as [i j]. simpl in *. unfold resolve.
      repeat case_decide; intros [= ? ?]; lia.
    + unfold scannable, in_range. simpl. lia.
Defined.

(** ** The loop of [randomly_generate_carriers] *)

Lemma export_import (s : state) (n_i n_j channels : nat) (keys : list string) :
  registry_loadable s (n_i + 4) (n_j + 8) channels ->
  (∀ k, k ∈ keys <-> is_Some (allocated_carriers s !! k)) ->
  ∃ raws s',
    convert_to_raw keys s = Returned raws
    ∧ length raws = length keys
    ∧ import_data raws n_i n_j channels = Returned s'
    ∧ grid_shape (channel_list s') (n_i + 4) (n_j + 8) channels
    ∧ allocated_carriers s' = allocated_carriers s.
Proof.
  intros Hload Hkeys.
  destruct (convert_to_raw_loadable s _ _ _ keys Hload ltac:(intros; by apply Hkeys) [])
    as (raws & Hto & Hcodes & Hl & Hp).
  destruct (convert_from_raw_loadable _ _ _ raws Hl
              (State (np_zeros (n_i + 4) (n_j + 8) channels) ∅)
              ltac:(apply np_zeros_shape))
    as (s' & Hfrom & Hshape & Hreg).
  exists raws, s'. split; [exact Hto|].
  split; [by rewrite <- Hcodes, length_fmap|].
  split; [exact Hfrom|]. split; [exact Hshape|].
  cbn [allocated_carriers] in Hreg.
  rewrite Hreg. apply map_eq. intros k.
  pose proof (foldl_insert_sub (allocated_carriers s) raws Hp ∅
                ltac:(apply map_empty_subseteq)) as Hsub.
  destruct (allocated_carriers s !! k) as [p|] eqn:Hk.
  - destruct (foldl_insert_is_Some raws ∅ k) as [x Hx].
    { left. rewrite Hcodes. apply Hkeys. by rewrite Hk. }
    rewrite Hx. pose proof (lookup_weaken _ _ _ _ Hx Hsub). congruence.
  - destruct (foldl _ _ _ !! k) as [x|] eqn:Hx; [|done].
    pose proof (lookup_weaken _ _ _ _ Hx Hsub). congruence.
Qed.

Lemma generation_step_returns (fuel : nat) (keys : list string) (s : state)
    (r : carrier_info) (n_i n_j channels : nat) :
  registry_loadable s (n_i + 4) (n_j + 8) channels ->
  (∀ k, k ∈ keys <-> is_Some (allocated_carriers s !! k)) ->
  (40 <= channels)%nat ->
  request_ok (n_i + 4) (n_j + 8) fuel r ->
  ∃ g channel v,
    generation_step fuel keys s r n_i n_j channels
    = Returned
        (State g
           (<[carrier_code_of (nc_i r) (nc_j r) channel (nc_ucode r) := nc_priority r]>
              (allocated_carriers s)))
    ∧ (0 <= channel < 40)
    ∧ py_float (nc_ucode r) = Returned v.
Proof.
  intros Hload Hkeys HC (Hscan & [v Hv] & Hfuel).
  destruct (export_import s n_i n_j channels keys Hload Hkeys)
    as (raws & s0 & Hto & Hlen & Hfrom & Hshape0 & Hdict0).
  assert (∃ s1 C1,
            (if decide (0 < length raws)%nat then import_data raws n_i n_j channels
             else Returned (State (np_zeros (n_i + 4) (n_j + 8) 40) ∅)) = Returned s1
            ∧ grid_shape (channel_list s1) (n_i + 4) (n_j + 8) C1 ∧ (40 <= C1)%nat
            ∧ allocated_carriers s1 = allocated_carriers s)
    as (s1 & C1 & Hs1 & Hshape1 & HC1 & Hdict1).
  { destruct (decide (0 < length raws)%nat) as [Hpos|Hzero].
    - by exists s0, channels.
    - eexists _, 40%nat. split; [done|]. split; [apply np_zeros_shape|].
      split; [done|]. cbn [allocated_carriers].
      destruct keys as [|k keys]; [|simpl in *; lia].
      symmetry. apply map_empty. intros k.
      destruct (allocated_carriers s !! k) eqn:Hk; [|done].
      assert (k ∈ []) as Hin by (apply Hkeys; by rewrite Hk).
      by apply not_elem_of_nil in Hin. }
  destruct (allocate_carrier_spec s1 _ _ C1 Hshape1 HC1 fuel r v Hscan Hv Hfuel)
    as (T & channel & rest & _ & E & _ & Hrun).
  destruct (spec_admissible_head _ _ _ _ _ _ E) as (Hch & _ & _).
  eexists _, channel, v. split; [|done].
  unfold generation_step, base_carrier_manager.
  rewrite Hto, bind_Returned, Hs1, bind_Returned.
  cbn [allocate_carriers]. rewrite Hrun, Hdict1. reflexivity.
Qed.



Lemma neighbours_symmetric_witness :
  (5, 7) ∈ (neighbour_array 5 5).2 <-> (5, 5) ∈ (neighbour_array 5 7).2.
Proof. apply (neighbours_symmetric 5 7 5 5); unfold int64_centre; lia. Defined.

(** ** The carriers [generate_random_carrier] draws *)

Lemma randint_range (low high draw : Z) :
  low < high ->
  ∃ x, randint low high draw = Returned x ∧ low <= x < high.
Proof.
  intros Hlt. unfold randint. rewrite decide_True by done.
  eexists. split; [done|].
  pose proof (Z.mod_pos_bound draw (high - low) ltac:(lia)). lia.
Qed.

Lemma delete_positions_below (p : nat) (positions : list nat) (arr : list Z) :
  ∀ n, (p < n)%nat ->
       delete_positions (p :: positions) n arr = delete_positions positions n arr.
Proof.
  induction arr as [|x arr IH]; intros n Hp; [done|].
  cbn [delete_positions]. rewrite (IH (S n)) by lia.
  destruct (decide (n ∈ p :: positions)) as [Hin|Hnin], (decide (n ∈ positions))
    as [Hin'|Hnin']; try done.
  - apply elem_of_cons in Hin as [->|?]; [lia|done].
  - destruct Hnin. by apply list_elem_of_further.
Qed.

Lemma delete_positions_one_more (p : nat) (positions : list nat) (arr : list Z) :
  ∀ n, (length (delete_positions positions n arr)
        <= S (length (delete_positions (p :: positions) n arr)))%nat.
Proof.
  induction arr as [|x arr IH]; intros n; [simpl; lia|].
  cbn [delete_positions].
  destruct (decide (n ∈ positions)) as [Hin|Hnin].
  - rewrite decide_True by (by apply list_elem_of_further). apply IH.
  - destruct (decide (n = p)) as [->|Hne].
    + rewrite decide_True by apply list_elem_of_here.
      rewrite delete_positions_below by lia. simpl. lia.
    + rewrite decide_False by (rewrite elem_of_cons; intros [?|?]; done).
      simpl. specialize (IH (S n)). lia.
Qed.

Lemma delete_positions_length (positions : list nat) (arr : list Z) (n : nat) :
  (length arr <= length (delete_positions positions n arr) + length positions)%nat.
Proof.
  induction positions as [|p positions IH].
  - assert (∀ m, delete_positions [] m arr = arr) as ->; [|simpl; lia].
    induction arr as [|x arr IHarr]; intros m; [done|].
    cbn [delete_positions]. rewrite decide_False by apply not_elem_of_nil.
    by rewrite IHarr.
  - pose proof (delete_positions_one_more p positions arr n). simpl. lia.
Qed.

Lemma delete_positions_arange (positions : list nat) (t : nat) :
  ∀ n w,
    w ∈ delete_positions positions n (seqZ (Z.of_nat n) (Z.of_nat t)) ->
    (Z.of_nat n <= w < Z.of_nat n + Z.of_nat t) ∧ Z.to_nat w ∉ positions.
Proof.
  induction t as [|t IH]; intros n w Hw.
  - simpl in Hw. by apply not_elem_of_nil in Hw.
  - rewrite (seqZ_cons (Z.of_nat n) (Z.of_nat (S t))) in Hw by lia.
    cbn [delete_positions] in Hw.
    replace (Z.succ (Z.of_nat n)) with (Z.of_nat (S n)) in Hw by lia.
    replace (Z.pred (Z.of_nat (S t))) with (Z.of_nat t) in Hw by lia.
    destruct (decide (n ∈ positions)) as [Hin|Hnin].
    + apply IH in Hw. split; [lia|tauto].
    + apply elem_of_cons in Hw as [->|Hw].
      * split; [lia|]. by rewrite Nat2Z.id.
      * apply IH in Hw. split; [lia|tauto].
Qed.

Lemma np_delete_positions (len : nat) (obj : list Z) :
  Forall (fun v => 0 <= v < Z.of_nat len) obj ->
  ∀ acc,
    for_each (fun positions k => n ← py_index len k; Returned (positions ++ [n])) acc obj
    = Returned (acc ++ (Z.to_nat <$> obj)).
Proof.
  induction 1 as [|v obj Hv _ IH]; intros acc.
  - by rewrite app_nil_r.
  - cbn [for_each]. rewrite (py_index_in_range len v) by (unfold in_range; lia).
    rewrite (resolve_nonneg len v) by lia.
    rewrite !bind_Returned, IH, fmap_cons. by rewrite <- app_assoc.
Qed.

Lemma getitem_fourth {A : Type} (a b c d : A) : getitem [a; b; c; d] 3 = Returned d.
Proof. reflexivity. Qed.

Lemma active_ucodes_numbered (s : state) (total : Z) (keys : list string) :
  registry_numbered s total ->
  (∀ k, k ∈ keys -> is_Some (allocated_carriers s !! k)) ->
  ∀ acc, ∃ vs,
    for_each (fun active_ucodes carrier =>
                u ← getitem (re_split ":" carrier) 3;
                n ← py_int u;
                Returned (active_ucodes ++ [n])) acc keys
    = Returned (acc ++ vs)
    ∧ length vs = length keys
    ∧ Forall (fun v => 0 <= v < total) vs
    ∧ ∀ i j channel u v,
        carrier_code_of i j channel u ∈ keys -> py_int u = Returned v -> v ∈ vs.
Proof.
  intros Hnum. induction keys as [|k keys IH]; intros Hkeys acc.
  - exists []. rewrite app_nil_r. split; [done|]. split; [done|]. split; [done|].
    intros i j channel u v Hin. by apply not_elem_of_nil in Hin.
  - destruct (Hnum k (Hkeys k ltac:(left))) as (i & j & c & u & v & -> & Hv & Hrange).
    assert (no_colon u) as Hu by (by eapply py_int_no_colon).
    destruct (IH ltac:(intros k' Hk'; apply Hkeys; by right) (acc ++ [v]))
      as (vs & Hrun & Hlen & Hvs & Hall).
    exists (v :: vs). cbn [for_each].
    rewrite re_split_carrier_code, getitem_fourth, bind_Returned, Hv by done.
    rewrite !bind_Returned, Hrun, <- app_assoc.
    split; [done|]. split; [simpl; by rewrite Hlen|]. split; [by constructor|].
    intros i' j' c' u' v' [Heq|Hin]%elem_of_cons Hv'.
    + apply carrier_code_of_inj in Heq as (_ & _ & _ & ->).
      rewrite Hv in Hv'. injection Hv' as ->. apply list_elem_of_here.
    + apply list_elem_of_further. by eapply Hall.
Qed.

Lemma generate_random_carrier_returns (n_i n_j : nat) (s : state)
    (keys : list string) (draw_i draw_j draw_u draw_p : Z) :
  (0 < n_i)%nat -> (0 < n_j)%nat ->
  registry_numbered s (Z.of_nat ((n_i + 4) * (n_j + 8) * 40)) ->
  (∀ k, k ∈ keys <-> is_Some (allocated_carriers s !! k)) ->
  (length keys < (n_i + 4) * (n_j + 8) * 40)%nat ->
  ∃ c_i c_j p w,
    generate_random_carrier n_i n_j keys draw_i draw_j draw_u draw_p
    = Returned (CarrierInfo c_i c_j p (pretty w))
    ∧ (2 <= c_i < Z.of_nat n_i + 2) ∧ (4 <= c_j < Z.of_nat n_j + 4)
    ∧ (0 <= p < 10)
    ∧ (0 <= w < Z.of_nat ((n_i + 4) * (n_j + 8) * 40))
    ∧ ∀ i j channel u,
        is_Some (allocated_carriers s !! carrier_code_of i j channel u) ->
        py_int u ≠ Returned w.
Proof.
  intros Hi Hj Hnum Hkeys Hroom.
  set (total := ((n_i + 4) * (n_j + 8) * 40)%nat) in *.
  destruct (randint_range 2 (Z.of_nat n_i + 2) draw_i ltac:(lia)) as (c_i & Hci & Hci').
  destruct (randint_range 4 (Z.of_nat n_j + 4) draw_j ltac:(lia)) as (c_j & Hcj & Hcj').
  destruct (randint_range 0 10 draw_p ltac:(lia)) as (p & Hp & Hp').
  destruct (active_ucodes_numbered s (Z.of_nat total) keys Hnum
              ltac:(intros; by apply Hkeys) [])
    as (vs & Hactive & Hlen & Hvs & Hall).
  set (carriers := delete_positions (Z.to_nat <$> vs) 0 (seqZ 0 (Z.of_nat total))).
  assert (np_delete (seqZ 0 (Z.of_nat total)) vs = Returned carriers) as Hdelete.
  { unfold np_delete. rewrite length_seqZ, Nat2Z.id.
    by rewrite (np_delete_positions total vs Hvs []), bind_Returned. }
  assert (0 < length carriers)%nat as Hsome.
  { pose proof (delete_positions_length (Z.to_nat <$> vs) (seqZ 0 (Z.of_nat total)) 0)
      as Hle.
    rewrite length_seqZ, length_fmap, Nat2Z.id in Hle. fold carriers in Hle. lia. }
  destruct (randint_range 0 (Z.of_nat (length carriers)) draw_u ltac:(lia))
    as (e & He & He').
  destruct (lookup_lt_is_Some_2 carriers (Z.to_nat e) ltac:(lia)) as [w Hw].
  assert (getitem carriers e = Returned w) as Hget.
  { unfold getitem, py_index. rewrite decide_True by lia.
    by rewrite bind_Returned, Hw. }
  destruct (delete_positions_arange (Z.to_nat <$> vs) total 0 w) as [Hw' Hfresh].
  { eapply list_elem_of_lookup_2. exact Hw. }
  exists c_i, c_j, p, w. split.
  { unfold generate_random_carrier. fold total.
    rewrite Hci, bind_Returned, Hcj, bind_Returned, Hactive, bind_Returned.
    cbn [app]. rewrite Hdelete, bind_Returned, He, bind_Returned, Hget, bind_Returned.
    by rewrite Hp, bind_Returned. }
  split; [done|]. split; [done|]. split; [done|]. split; [lia|].
  intros i j channel u Hin Hu.
  apply Hfresh. apply list_elem_of_fmap. exists w. split; [done|].
  eapply Hall; [by apply Hkeys|done].
Qed.

(** X23: whatever the generator draws, [generate_random_carrier] returns a
    carrier the allocation serves, provided the extent is not empty, every
    identity of the dict is a number it could have handed out and some
    number is left: the beam can be scanned on the padded grid, the identity
    is the decimal form of a number below the size of the grid that no code
    of the dict ends in, and the priority is one of 0 to 9. *)
Theorem generated_carrier_served (n_i n_j : nat) (s : state) (keys : list string)
    (draw_i draw_j draw_u draw_p : Z) (fuel : nat) :
  (0 < n_i)%nat -> (0 < n_j)%nat ->
  registry_numbered s (Z.of_nat ((n_i + 4) * (n_j + 8) * 40)) ->
  (∀ k, k ∈ keys <-> is_Some (allocated_carriers s !! k)) ->
  (length keys < (n_i + 4) * (n_j + 8) * 40)%nat ->
  (119 <= fuel)%nat ->
  ∃ r w,
    generate_random_carrier n_i n_j keys draw_i draw_j draw_u draw_p = Returned r
    ∧ request_ok (n_i + 4) (n_j + 8) fuel r
    ∧ (0 <= nc_priority r < 10)
    ∧ nc_ucode r = pretty w
    ∧ (0 <= w < Z.of_nat ((n_i + 4) * (n_j + 8) * 40))
    ∧ ∀ i j channel u,
        is_Some (allocated_carriers s !! carrier_code_of i j channel u) ->
        u ≠ nc_ucode r.
Proof.
  intros Hi Hj Hnum Hkeys Hroom Hfuel.
  destruct (generate_random_carrier_returns n_i n_j s keys draw_i draw_j draw_u draw_p
              Hi Hj Hnum Hkeys Hroom)
    as (c_i & c_j & p & w & Hgen & Hci & Hcj & Hp & Hw & Hfresh).
  exists (CarrierInfo c_i c_j p (pretty w)), w. split; [exact Hgen|].
  unfold request_ok. cbn [nc_i nc_j nc_priority nc_ucode].
  split.
  { split; [unfold scannable, in_range; lia|].
    split; [exists w; apply py_int_pretty|]. lia. }
  split; [done|]. split; [done|]. split; [done|].
  intros i j channel u Hin ->.
  apply (Hfresh i j channel (pretty w) Hin), py_int_pretty.
Qed.

Lemma generated_carrier_served_witness :
  ∃ r w,
    generate_random_carrier 14 14 [carrier_code_of 5 5 0 "7"] 3 11 6 25 = Returned r
    ∧ request_ok (14 + 4) (14 + 8) 119 r
    ∧ (0 <= nc_priority r < 10)
    ∧ nc_ucode r = pretty w
    ∧ (0 <= w < Z.of_nat ((14 + 4) * (14 + 8) * 40))
    ∧ ∀ i j channel u,
        is_Some (allocated_carriers
                   (State (np_zeros 18 22 40) (<[carrier_code_of 5 5 0 "7" := 2]> ∅))
                 !! carrier_code_of i j channel u) ->
        u ≠ nc_ucode r.
Proof.
  apply (generated_carrier_served 14 14
           (State (np_zeros 18 22 40) (<[carrier_code_of 5 5 0 "7" := 2]> ∅))
           [carrier_code_of 5 5 0 "7"] 3 11 6 25 119).
  - lia.
  - lia.
  - intros k. cbn [allocated_carriers].
    intros [Heq|[_ Hold]]%lookup_insert_is_Some.
    + exists 5, 5, 0, "7"%string, 7. split; [done|]. split; [done|]. lia.
    + rewrite lookup_empty in Hold. by destruct Hold.
  - intros k. cbn [allocated_carriers]. rewrite list_elem_of_singleton.
    split.
    + intros ->. rewrite lookup_insert_eq. by eexists.
    + intros [Heq|[_ Hold]]%lookup_insert_is_Some; [done|].
      rewrite lookup_empty in Hold. by destruct Hold.
  - cbn [length]. lia.
  - lia.
Defined.

(** X24: one pass of the loop of [randomly_generate_carriers] with the
    carrier it draws itself, whatever the generator supplies: from a state
    whose carrier codes are codes of slots of the grid, with identities the
    generator could have handed out and one of them left, on a grid of at
    least 40 channels, the draw, the export, the import and the allocation
    all return; the next state is such a state again; and its dict holds
    exactly one carrier more. *)
Theorem generation_pass (n_i n_j channels fuel : nat) (s : state) (keys : list string)
    (draw_i draw_j draw_u draw_p : Z) :
  (0 < n_i)%nat -> (0 < n_j)%nat -> (40 <= channels)%nat -> (119 <= fuel)%nat ->
  registry_loadable s (n_i + 4) (n_j + 8) channels ->
  registry_numbered s (Z.of_nat ((n_i + 4) * (n_j + 8) * 40)) ->
  (∀ k, k ∈ keys <-> is_Some (allocated_carriers s !! k)) ->
  (length keys < (n_i + 4) * (n_j + 8) * 40)%nat ->
  ∃ r s',
    generate_random_carrier n_i n_j keys draw_i draw_j draw_u draw_p = Returned r
    ∧ generation_step fuel keys s r n_i n_j channels = Returned s'
    ∧ registry_loadable s' (n_i + 4) (n_j + 8) channels
    ∧ registry_numbered s' (Z.of_nat ((n_i + 4) * (n_j + 8) * 40))
    ∧ size (allocated_carriers s') = S (size (allocated_carriers s)).
Proof.
  intros Hi Hj HC Hfuel Hload Hnum Hkeys Hroom.
  destruct (generate_random_carrier_returns n_i n_j s keys draw_i draw_j draw_u draw_p
              Hi Hj Hnum Hkeys Hroom)
    as (c_i & c_j & p & w & Hgen & Hci & Hcj & Hp & Hw & Hfresh).
  set (r := CarrierInfo c_i c_j p (pretty w)) in *.
  assert (scannable (n_i + 4) (n_j + 8) c_i c_j) as Hscan
    by (unfold scannable, in_range; lia).
  assert (request_ok (n_i + 4) (n_j + 8) fuel r) as Hok.
  { split; [done|]. split; [exists w; apply py_int_pretty|].
    cbn [r nc_priority]. lia. }
  destruct (generation_step_returns fuel keys s r n_i n_j channels Hload Hkeys HC Hok)
    as (g & channel & v & Hstep & Hch & Hv).
  cbn [r nc_i nc_j nc_priority nc_ucode] in Hstep.
  destruct (scannable_centre _ _ _ _ Hscan) as [Hin_i Hin_j].
  eexists r, _. split; [exact Hgen|]. split; [exact Hstep|].
  unfold registry_loadable, registry_numbered. cbn [allocated_carriers].
  split; [|split].
  - intros k [Heq|[_ Hold]]%lookup_insert_is_Some.
    + exists c_i, c_j, channel, (pretty w), w.
      split; [done|]. split; [apply py_int_pretty|]. split; [done|]. split; [done|].
      unfold in_range. lia.
    + by apply Hload.
  - intros k [Heq|[_ Hold]]%lookup_insert_is_Some.
    + exists c_i, c_j, channel, (pretty w), w.
      split; [done|]. split; [apply py_int_pretty|done].
    + by apply Hnum.
  - apply map_size_insert_None.
    destruct (allocated_carriers s !! _) eqn:Hk; [|done].
    destruct (Hfresh c_i c_j channel (pretty w)); [by rewrite Hk|apply py_int_pretty].
Qed.

Lemma generation_pass_witness :
  ∃ r s',
    generate_random_carrier 14 14 [carrier_code_of 5 5 0 "7"] 3 11 6 25 = Returned r
    ∧ generation_step 119 [carrier_code_of 5 5 0 "7"]
        (State (np_zeros 18 22 40) (<[carrier_code_of 5 5 0 "7" := 2]> ∅)) r 14 14 40
      = Returned s'
    ∧ registry_loadable s' (14 + 4) (14 + 8) 40
    ∧ registry_numbered s' (Z.of_nat ((14 + 4) * (14 + 8) * 40))
    ∧ size (allocated_carriers s')
      = S (size (allocated_carriers
                  (State (np_zeros 18 22 40) (<[carrier_code_of 5 5 0 "7" := 2]> ∅)))).
Proof.
  apply (generation_pass 14 14 40 119
           (State (np_zeros 18 22 40) (<[carrier_code_of 5 5 0 "7" := 2]> ∅))
           [carrier_code_of 5 5 0 "7"] 3 11 6 25).
  - lia.
  - lia.
  - lia.
  - lia.
  - intros k. cbn [allocated_carriers].
    intros [Heq|[_ Hold]]%lookup_insert_is_Some.
    + exists 5, 5, 0, "7"%string, 7. unfold in_range. simpl. repeat split; done || lia.
    + rewrite lookup_empty in Hold. by destruct Hold.
  - intros k. cbn [allocated_carriers].
    intros [Heq|[_ Hold]]%lookup_insert_is_Some.
    + exists 5, 5, 0, "7"%string, 7. split; [done|]. split; [done|]. lia.
    + rewrite lookup_empty in Hold. by destruct Hold.
  - intros k. cbn [allocated_carriers]. rewrite list_elem_of_singleton.
    split.
    + intros ->. rewrite lookup_insert_eq. by eexists.
    + intros [Heq|[_ Hold]]%lookup_insert_is_Some; [done|].
      rewrite lookup_empty in Hold. by destruct Hold.
  - cbn [length]. lia.
Defined.

(** ** The carrier [select_random_carrier] picks *)

(** X25: on an empty dict [select_random_carrier] raises ValueError, the
    range of the draw being empty.  On a dict that is not empty it returns
    one of the keys, whatever the generator supplies, and in a state whose
    carrier codes all name slots of the grid [deallocate_carrier] then
    returns for that key and removes its entry. *)
Theorem select_random_carrier_key (s : state) (N M C : nat) (keys : list string)
    (draw : Z) :
  grid_shape (channel_list s) N M C ->
  registry_addressable s N M C ->
  (∀ k, k ∈ keys <-> is_Some (allocated_carriers s !! k)) ->
  keys ≠ [] ->
  select_random_carrier [] draw = Raised ValueError
  ∧ ∃ k s',
      select_random_carrier keys draw = Returned k
      ∧ is_Some (allocated_carriers s !! k)
      ∧ deallocate_carrier k s = (Returned (), s')
      ∧ allocated_carriers s' = delete k (allocated_carriers s).
Proof.
  intros Hshape Haddr Hkeys Hne. split.
  - reflexivity.
  - assert (0 < length keys)%nat as Hlen by (destruct keys; [done|simpl; lia]).
    destruct (randint_range 0 (Z.of_nat (length keys)) draw ltac:(lia))
      as (e & He & He').
    destruct (lookup_lt_is_Some_2 keys (Z.to_nat e) ltac:(lia)) as [k Hk].
    assert (is_Some (allocated_carriers s !! k)) as Hin
      by (apply Hkeys; by eapply list_elem_of_lookup_2).
    destruct (Haddr k Hin) as (i & j & c & u & -> & Hu & Hi & Hj & Hc).
    destruct Hin as [p Hp].
    eexists _, _. split.
    { unfold select_random_carrier. rewrite He, bind_Returned.
      unfold getitem, py_index. rewrite decide_True by lia.
      by rewrite bind_Returned, Hk. }
    split; [by exists p|].
    split; [by apply (deallocate_present s N M C i j c u p)|done].
Qed.

Lemma select_random_carrier_key_witness :
  select_random_carrier [] 12 = Raised ValueError
  ∧ ∃ k s',
      select_random_carrier [carrier_code_of 5 5 0 "7"] 12 = Returned k
      ∧ is_Some (allocated_carriers
                   (State (write_at (np_zeros 18 22 40) 5 5 0 7)
                      (<[carrier_code_of 5 5 0 "7" := 2]> ∅)) !! k)
      ∧ deallocate_carrier k
          (State (write_at (np_zeros 18 22 40) 5 5 0 7)
             (<[carrier_code_of 5 5 0 "7" := 2]> ∅))
        = (Returned (), s')
      ∧ allocated_carriers s'
        = delete k
            (allocated_carriers
               (State (write_at (np_zeros 18 22 40) 5 5 0 7)
                  (<[carrier_code_of 5 5 0 "7" := 2]> ∅))).
Proof.
  apply (select_random_carrier_key
           (State (write_at (np_zeros 18 22 40) 5 5 0 7)
              (<[carrier_code_of 5 5 0 "7" := 2]> ∅))
           18 22 40 [carrier_code_of 5 5 0 "7"] 12).
  - apply write_at_shape, np_zeros_shape.
  - intros k. cbn [allocated_carriers].
    intros [Heq|[_ Hold]]%lookup_insert_is_Some.
    + exists 5, 5, 0, "7"%string. unfold in_range. simpl. repeat split; done || lia.
    + rewrite lookup_empty in Hold. by destruct Hold.
  - intros k. cbn [allocated_carriers]. rewrite list_elem_of_singleton.
    split.
    + intros ->. rewrite lookup_insert_eq. by eexists.
    + intros [Heq|[_ Hold]]%lookup_insert_is_Some; [done|].
      rewrite lookup_empty in Hold. by destruct Hold.
  - done.
Defined.
